(** * Subnet resolution for a cluster: cache-or-fetch followed by narrowing

    A shallow embedding of [pkg/cloudprovider/aws/subnets.go]:
    [SubnetProvider.Get], [SubnetProvider.getSubnets], [filter], [byName],
    [byTagKey] and [byZones], together with the pieces of the Go runtime and
    of the libraries the file calls that its behaviour depends on (slices and
    [append], [fmt.Sprintf]/[fmt.Errorf], [aws.StringValue], the go-cache
    store).  Calls are taken one at a time: the store's lock and its janitor
    goroutine are not modelled, only what a sweep of the janitor does. *)

From Stdlib Require Import ZArith String Ascii List Lia.
From stdpp Require Import base option list strings gmap.

Local Open Scope string_scope.
Local Open Scope Z_scope.
Local Open Scope list_scope.
Local Open Scope stdpp_scope.

(** ** Values of the EC2 API *)

(** A Go [*string]: [None] is the nil pointer. *)
Definition aws_StringValue (v : option string) : string :=
  match v with
  | Some s => s
  | None => ""
  end.

Definition aws_String (s : string) : option string := Some s.

(** [ec2.Tag]: both fields are [*string]. *)
Record Tag := mkTag { Key : option string; Value : option string }.

(** [ec2.Subnet], restricted to the fields read by this file and the
    identifier.  The structs are never written to, so a non-nil [*ec2.Tag] or
    [*ec2.Subnet] is modelled by the struct it points to.  The elements of
    [Tags] are taken non-nil, as the SDK builds them and as the loops, which
    dereference them unguarded, assume; a nil [*ec2.Subnet] appears below as
    an empty cell of a backing array. *)
Record Subnet := mkSubnet {
  SubnetId : option string;
  AvailabilityZone : option string;
  Tags : list Tag
}.

(** ** The three predicates *)

(** The loop of the closure returned by [byName]: the first tag whose key is
    ["Name"] returns. *)
Fixpoint byName_tags (name : string) (tags : list Tag) : bool :=
  match tags with
  | [] => false
  | tag :: rest =>
      if String.eqb (aws_StringValue (Key tag)) "Name"
      then String.eqb (aws_StringValue (Value tag)) name
      else byName_tags name rest
  end.

Definition byName (name : string) : Subnet -> bool :=
  fun subnet => byName_tags name (Tags subnet).

Fixpoint byTagKey_tags (tagKey : string) (tags : list Tag) : bool :=
  match tags with
  | [] => false
  | tag :: rest =>
      if String.eqb (aws_StringValue (Key tag)) tagKey
      then true
      else byTagKey_tags tagKey rest
  end.

Definition byTagKey (tagKey : string) : Subnet -> bool :=
  fun subnet => byTagKey_tags tagKey (Tags subnet).

Fixpoint byZones_zones (subnet : Subnet) (zones : list string) : bool :=
  match zones with
  | [] => false
  | zone :: rest =>
      if String.eqb (aws_StringValue (AvailabilityZone subnet)) zone
      then true
      else byZones_zones subnet rest
  end.

Definition byZones (zones : list string) : Subnet -> bool :=
  fun subnet => byZones_zones subnet zones.

(** ** Go errors and formatting *)

(** The [error] values this file meets: an opaque error carrying its message
    (what the EC2 client hands back) and [fmt]'s [*wrapError]. *)
Inductive error :=
  | errorString (s : string)
  | wrapError (msg : string) (err : error).

Definition Error (e : error) : string :=
  match e with
  | errorString s => s
  | wrapError msg _ => msg
  end.

Definition Unwrap (e : error) : option error :=
  match e with
  | errorString _ => None
  | wrapError _ err => Some err
  end.

(** The verbs that print a string operand as it is: [%s] and [%v], and [%w]
    inside [fmt.Errorf]. *)
Definition plain_verb (wrapErrs : bool) (c : ascii) : bool :=
  Ascii.eqb c "s" || Ascii.eqb c "v" || (wrapErrs && Ascii.eqb c "w").

(** [fmt]'s [doPrintf] for a call with at most one operand, a string, and
    verbs without flags, width or precision.  [arg] is the operand not yet
    consumed.  Literal bytes are copied, [%%] prints a percent sign, a plain
    verb prints the operand, and the error renderings of [fmt] are kept:
    [%!v(MISSING)], [%!d(string=..)], [%!(NOVERB)] and [%!(EXTRA ..)]. *)
Fixpoint doPrintf (wrapErrs : bool) (format : string) (arg : option string)
  : string :=
  match format with
  | EmptyString =>
      match arg with
      | Some a => "%!(EXTRA string=" +:+ a +:+ ")"
      | None => ""
      end
  | String c rest =>
      if Ascii.eqb c "%" then
        match rest with
        | EmptyString => "%!(NOVERB)" +:+ doPrintf wrapErrs rest arg
        | String verb rest' =>
            if Ascii.eqb verb "%" then String "%" (doPrintf wrapErrs rest' arg)
            else
              match arg with
              | Some a =>
                  (if plain_verb wrapErrs verb then a
                   else "%!" +:+ String verb ("(string=" +:+ a +:+ ")"))
                  +:+ doPrintf wrapErrs rest' None
              | None =>
                  "%!" +:+ String verb "(MISSING)"
                  +:+ doPrintf wrapErrs rest' None
              end
        end
      else String c (doPrintf wrapErrs rest arg)
  end.

(** [fmt.Sprintf(format, a)] with one string operand. *)
Definition fmt_Sprintf (format : string) (a : string) : string :=
  doPrintf false format (Some a).

(** [fmt.Errorf(format, err)] for a format with a [%w] verb: the operand is
    printed through its [Error] method and the result wraps it. *)
Definition fmt_Errorf (format : string) (err : error) : error :=
  wrapError (doPrintf true format (Some (Error err))) err.

(** A format piece without a percent sign: it is copied as it is. *)
Fixpoint percent_free (s : string) : bool :=
  match s with
  | EmptyString => true
  | String c rest => negb (Ascii.eqb c "%") && percent_free rest
  end.

(** ** Slices of [*ec2.Subnet] and their backing arrays *)

(** Where a slice header points: nowhere ([nil]), at the runtime's
    [zerobase] (the empty literal [[]*ec2.Subnet{}]), or at a backing array
    of the heap. *)
Inductive pointer :=
  | null
  | zerobase
  | arrayptr (l : nat).

Record slice := mkSlice { data : pointer; len : nat; cap : nat }.

Definition nil_slice : slice := mkSlice null 0 0.
Definition empty_slice : slice := mkSlice zerobase 0 0.

(** A backing array: one cell per element, [None] for a nil pointer (the
    zero value of a cell never written).  The heap is the list of the arrays
    allocated so far; an array's address is its position, nothing is freed. *)
Abbreviation array := (list (option Subnet)).

(** The capacity policy of [runtime.growslice] (doubling, size classes)
    belongs to the Go release: [growcap old needed] is its answer, never
    taken below what is needed. *)
Class GoRuntime := { growcap : nat -> nat -> nat }.

Section Slices.
Context `{GoRuntime}.

(** The cells [s[0:len(s)]], when the header lies within its array. *)
Definition cells (s : slice) (h : list array) : option array :=
  match data s with
  | arrayptr l =>
      match h !! l with
      | Some a =>
          if decide (len s <= length a)%nat then Some (take (len s) a) else None
      | None => None
      end
  | _ => if decide (len s = 0)%nat then Some [] else None
  end.

(** [*s[i]] as the predicates use it: the subnet that cell [i] points to.
    [None] stands for the run-time panics (index out of range, nil pointer
    dereference). *)
Definition index (s : slice) (i : nat) (h : list array) : option Subnet :=
  if decide (i < len s)%nat then
    match data s with
    | arrayptr l =>
        match h !! l with
        | Some a =>
            match a !! i with
            | Some (Some subnet) => Some subnet
            | _ => None
            end
        | None => None
        end
    | _ => None
    end
  else None.

(** [append(s, x)]: in place when there is room, otherwise into a fresh,
    larger array to which the old cells are copied.  [None] only for a header
    that does not lie within its array, which the runtime never hands out. *)
Definition append (s : slice) (x : Subnet) (h : list array)
  : option (slice * list array) :=
  if decide (len s < cap s)%nat then
    match data s with
    | arrayptr l =>
        match h !! l with
        | Some a =>
            if decide (len s < length a)%nat
            then Some (mkSlice (arrayptr l) (S (len s)) (cap s),
                       <[l := <[len s := Some x]> a]> h)
            else None
        | None => None
        end
    | _ => None
    end
  else
    match cells s h with
    | Some old =>
        let newcap := Nat.max (S (len s)) (growcap (cap s) (S (len s))) in
        Some (mkSlice (arrayptr (length h)) (S (len s)) newcap,
              h ++ [old ++ Some x :: replicate (newcap - S (len s)) None])
    | None => None
    end.

(** The [for _, subnet := range subnets] loop of [filter]: [i] is the
    index of the next element, [n] the number of iterations left. *)
Fixpoint filter_loop (predicate : Subnet -> bool) (subnets : slice)
    (i n : nat) (result : slice) (h : list array)
  : option (slice * list array) :=
  match n with
  | O => Some (result, h)
  | S n' =>
      match index subnets i h with
      | Some subnet =>
          if predicate subnet then
            match append result subnet h with
            | Some (result', h') =>
                filter_loop predicate subnets (S i) n' result' h'
            | None => None
            end
          else filter_loop predicate subnets (S i) n' result h
      | None => None
      end
  end.

Definition filter (predicate : Subnet -> bool) (subnets : slice)
    (h : list array) : option (slice * list array) :=
  filter_loop predicate subnets 0 (len subnets) empty_slice h.

(** What a well-formed slice holds: [view s h = Some xs] when the header
    lies within its array, its capacity is the array's, and cells
    [0 .. len-1] point to the subnets [xs]. *)
Definition view (s : slice) (h : list array) : option (list Subnet) :=
  match data s with
  | arrayptr l =>
      match h !! l with
      | Some a =>
          if decide (len s <= cap s /\ cap s = length a)%nat
          then mapM id (take (len s) a)
          else None
      | None => None
      end
  | _ => if decide (len s = 0 /\ cap s = 0)%nat then Some [] else None
  end.

End Slices.

(** A slice that shares no array with a heap of [n0] arrays: its array, if
    any, was allocated later. *)
Definition owned (n0 : nat) (r : slice) : Prop :=
  match data r with
  | arrayptr l => (n0 <= l)%nat
  | _ => True
  end.

(** ** The cache store (github.com/patrickmn/go-cache) *)

(** An [Item]: the cached object, here always a [[]*ec2.Subnet], and the
    instant it expires, in nanoseconds since the epoch; [0] or less means it
    never does. *)
Record Item := mkItem { Object : slice; Expiration : Z }.

Record Cache := mkCache { defaultExpiration : Z; items : gmap string Item }.

(** [cache.New(defaultExpiration, cleanupInterval)].  The cleanup interval
    only paces the janitor. *)
Definition cache_New (de cleanupInterval : Z) : Cache :=
  mkCache (if decide (de = 0) then -1 else de) ∅.

(** [c.Get(k)] at the instant [now]: the object and [found], as an option. *)
Definition cache_Get (c : Cache) (k : string) (now : Z) : option slice :=
  match items c !! k with
  | None => None
  | Some item =>
      if decide (0 < Expiration item) then
        if decide (Expiration item < now) then None else Some (Object item)
      else Some (Object item)
  end.

(** [c.Set(k, x, d)] at the instant [now]; [d = 0] asks for the default. *)
Definition cache_Set (c : Cache) (k : string) (x : slice) (d : Z) (now : Z)
  : Cache :=
  let d := if decide (d = 0) then defaultExpiration c else d in
  let e := if decide (0 < d) then now + d else 0 in
  mkCache (defaultExpiration c) (<[k := mkItem x e]> (items c)).

(** One sweep of the janitor, [c.DeleteExpired()]. *)
Definition cache_DeleteExpired (c : Cache) (now : Z) : Cache :=
  mkCache (defaultExpiration c)
    (base.filter
       (fun kv : string * Item =>
          ~ (0 < Expiration kv.2 /\ Expiration kv.2 < now))
       (items c)).

(** ** What the file takes from its surroundings *)

(** [ec2.Filter] and [ec2.DescribeSubnetsInput], as far as they are filled. *)
Record Filter := mkFilter { Name : option string; Values : list (option string) }.
Record DescribeSubnetsInput := mkInput { Filters : list Filter }.

(** The declarations this file uses and does not contain, and the world
    outside the process.
    - [Ctx] is [context.Context];
    - [Provisioner] is [v1alpha1.Provisioner] and [ClusterName] reads
      [provisioner.Spec.Cluster.Name];
    - [Env] is the state of everything external: the clock and the EC2
      service behind [ec2iface.EC2API]; [UnixNano] is [time.Now().UnixNano()]
      and [DescribeSubnets] is one remote call, answering with the subnets or
      with an error, after which the environment has moved on;
    - [CacheTTL], [CacheCleanupInterval] (a [time.Duration], in nanoseconds)
      and [ClusterTagKeyFormat] are the package's constants. *)
Class Platform := {
  Ctx : Type;
  Provisioner : Type;
  ClusterName : Provisioner -> string;
  Env : Type;
  UnixNano : Env -> Z;
  DescribeSubnets : Ctx -> DescribeSubnetsInput -> Env -> (list Subnet + error) * Env;
  CacheTTL : Z;
  CacheCleanupInterval : Z;
  ClusterTagKeyFormat : string
}.

(** Modelled from the spec: the type [Constraints] and its accessors
    [GetSubnetName] and [GetSubnetTagKey], declared outside this file.  Its
    shape is [{ name: optional string, tagKey: optional string,
    zones: list<string> }], where absence means "do not filter on this
    dimension"; an accessor returns a [*string], nil when absent. *)
Record Constraints := mkConstraints {
  SubnetName : option string;
  SubnetTagKey : option string;
  Zones : list string
}.

Definition GetSubnetName (c : Constraints) : option string := SubnetName c.
Definition GetSubnetTagKey (c : Constraints) : option string := SubnetTagKey c.

(** What the process does that can be observed from outside. *)
Inductive event :=
  | DescribeSubnetsCall (input : DescribeSubnetsInput)
  | Debugf (format : string) (count : nat) (cluster : string).

Section Provider.
Context `{GoRuntime} `{Platform}.

(** The state a call runs in: the environment, the heap of backing arrays,
    the store behind [s.cache] and the events so far. *)
Record World := mkWorld {
  env : Env;
  heap : list array;
  cache : Cache;
  trace : list event
}.

(** Computations over the world; [None] is a run-time panic. *)
Definition M (A : Type) : Type := World -> option (A * World).

Definition ret {A : Type} (x : A) : M A := fun w => Some (x, w).

Definition bind {A B : Type} (m : M A) (f : A -> M B) : M B := fun w =>
  match m w with
  | Some (a, w') => f a w'
  | None => None
  end.

Notation "x <- m ;; k" := (bind m (fun x => k))
  (at level 100, m at next level, right associativity).

Definition time_Now : M Z := fun w => Some (UnixNano (env w), w).

Definition s_cache_Get (k : string) : M (option slice) :=
  now <- time_Now ;;
  fun w => Some (cache_Get (cache w) k now, w).

Definition s_cache_Set (k : string) (x : slice) (d : Z) : M unit :=
  now <- time_Now ;;
  fun w => Some (tt, mkWorld (env w) (heap w) (cache_Set (cache w) k x d now) (trace w)).

Definition emit (e : event) : M unit :=
  fun w => Some (tt, mkWorld (env w) (heap w) (cache w) (trace w ++ [e])).

(** [s.ec2api.DescribeSubnetsWithContext(ctx, input)]: the remote call, then
    on success [output.Subnets], a slice the SDK has just allocated. *)
Definition DescribeSubnetsWithContext (ctx : Ctx) (input : DescribeSubnetsInput)
  : M (slice * option error) :=
  _ <- emit (DescribeSubnetsCall input) ;;
  fun w =>
    let '(answer, env') := DescribeSubnets ctx input (env w) in
    match answer with
    | inl subnets =>
        let n := length subnets in
        Some ((mkSlice (arrayptr (length (heap w))) n n, None),
              mkWorld env' (heap w ++ [Some <$> subnets]) (cache w) (trace w))
    | inr err =>
        Some ((nil_slice, Some err), mkWorld env' (heap w) (cache w) (trace w))
    end.

(** [filter] run on the world's heap. *)
Definition s_filter (predicate : Subnet -> bool) (subnets : slice) : M slice :=
  fun w =>
    match filter predicate subnets (heap w) with
    | Some (result, h') => Some (result, mkWorld (env w) h' (cache w) (trace w))
    | None => None
    end.

Definition getSubnets (ctx : Ctx) (provisioner : Provisioner)
  : M (slice * option error) :=
  found <- s_cache_Get (ClusterName provisioner) ;;
  match found with
  | Some subnets => ret (subnets, None)
  | None =>
      output <- DescribeSubnetsWithContext ctx
        (mkInput [mkFilter (aws_String "tag-key")
                    [aws_String (fmt_Sprintf ClusterTagKeyFormat
                                   (ClusterName provisioner))]]) ;;
      let '(output_Subnets, err) := output in
      match err with
      | Some err => ret (nil_slice, Some (fmt_Errorf "describing subnets, %w" err))
      | None =>
          _ <- emit (Debugf "Successfully discovered %d subnets for cluster %s"
                      (len output_Subnets) (ClusterName provisioner)) ;;
          _ <- s_cache_Set (ClusterName provisioner) output_Subnets CacheTTL ;;
          ret (output_Subnets, None)
      end
  end.

Definition Get (ctx : Ctx) (provisioner : Provisioner) (constraints : Constraints)
  : M (slice * option error) :=
  (* 1. Get all viable subnets for this provisioner *)
  viable <- getSubnets ctx provisioner ;;
  let '(subnets, err) := viable in
  match err with
  | Some err => ret (nil_slice, Some err)
  | None =>
      (* 2. Filter by subnet name if constrained *)
      subnets <- match GetSubnetName constraints with
                | Some _ as name => s_filter (byName (aws_StringValue name)) subnets
                | None => ret subnets
                end ;;
      (* 3. Filter by subnet tag key if constrained *)
      subnets <- match GetSubnetTagKey constraints with
                | Some tagKey => s_filter (byTagKey tagKey) subnets
                | None => ret subnets
                end ;;
      (* 4. Filter by zones if constrained *)
      subnets <- (if decide (length (Zones constraints) ≠ 0%nat)
                 then s_filter (byZones (Zones constraints)) subnets
                 else ret subnets) ;;
      ret (subnets, None)
  end.

(** [NewSubnetProvider(ec2api)]: a provider over an empty store. *)
Definition NewSubnetProvider (e : Env) : World :=
  mkWorld e [] (cache_New CacheTTL CacheCleanupInterval) [].

End Provider.

(** ** The narrowing the resolver is meant to perform, on plain lists *)

(** One stage per constraint, a no-op when its constraint is absent
    (steps 2 to 4 of the resolver's contract). *)
Definition stage_name (c : Constraints) (xs : list Subnet) : list Subnet :=
  match SubnetName c with
  | Some name => List.filter (byName name) xs
  | None => xs
  end.

Definition stage_tagKey (c : Constraints) (xs : list Subnet) : list Subnet :=
  match SubnetTagKey c with
  | Some tagKey => List.filter (byTagKey tagKey) xs
  | None => xs
  end.

Definition stage_zones (c : Constraints) (xs : list Subnet) : list Subnet :=
  match Zones c with
  | [] => xs
  | _ :: _ => List.filter (byZones (Zones c)) xs
  end.

Definition narrow (c : Constraints) (xs : list Subnet) : list Subnet :=
  stage_zones c (stage_tagKey c (stage_name c xs)).

(** What each constraint asks of a subnet; an absent constraint asks
    nothing.  [admits] is their conjunction. *)
Definition admits_name (c : Constraints) (x : Subnet) : bool :=
  match SubnetName c with
  | Some name => byName name x
  | None => true
  end.

Definition admits_tagKey (c : Constraints) (x : Subnet) : bool :=
  match SubnetTagKey c with
  | Some tagKey => byTagKey tagKey x
  | None => true
  end.

Definition admits_zones (c : Constraints) (x : Subnet) : bool :=
  match Zones c with
  | [] => true
  | _ :: _ => byZones (Zones c) x
  end.

Definition admits (c : Constraints) (x : Subnet) : bool :=
  admits_name c x && admits_tagKey c x && admits_zones c x.

(** [strings.Contains(s, substr)]. *)
Fixpoint contains (s substr : string) : bool :=
  String.prefix substr s
  || match s with
     | EmptyString => false
     | String _ rest => contains rest substr
     end.

(** A cache entry that [Get] still honours at the instant [now]. *)
Definition live (it : Item) (now : Z) : Prop :=
  ~ (0 < Expiration it /\ Expiration it < now).

(** Every cached slice is well formed in the heap. *)
Definition cache_ok `{Platform} (w : World) : Prop :=
  forall k it, items (cache w) !! k = Some it -> is_Some (view (Object it) (heap w)).

(** The world after the environment alone has moved on (time has passed,
    the service has changed). *)
Definition with_env `{Platform} (w : World) (e : Env) : World :=
  mkWorld e (heap w) (cache w) (trace w).

(** The request [getSubnets] sends for a cluster. *)
Definition discovery_input `{Platform} (cluster : string) : DescribeSubnetsInput :=
  mkInput [mkFilter (Some "tag-key")
             [Some (fmt_Sprintf ClusterTagKeyFormat cluster)]].

(** The reading of "the error identifies the cluster being resolved" under
    which it can be checked: whenever the remote call fails on a cache miss,
    the error [Get] returns wraps the cause, its message mentions the
    cluster's name, no list is returned and the cache is as before. *)
Definition failure_names_cluster : Prop :=
  forall (R : GoRuntime) (P : Platform) (ctx : Ctx) (p : Provisioner)
         (c : Constraints) (w : World) (cause : error) (e' : Env),
    cache_Get (cache w) (ClusterName p) (UnixNano (env w)) = None ->
    DescribeSubnets ctx (discovery_input (ClusterName p)) (env w) = (inr cause, e') ->
    exists e w',
      Get ctx p c w = Some ((nil_slice, Some e), w')
      /\ Unwrap e = Some cause
      /\ contains (Error e) (ClusterName p) = true
      /\ cache w' = cache w.

(** The remote calls recorded in a trace. *)
Definition remote_calls (tr : list event) : nat :=
  length (List.filter
            (fun e => match e with DescribeSubnetsCall _ => true | Debugf _ _ _ => false end)
            tr).

(** The world after the janitor has swept the store at the instant [t]. *)
Definition swept `{Platform} (w : World) (t : Z) : World :=
  mkWorld (env w) (heap w) (cache_DeleteExpired (cache w) t) (trace w).

(** The worlds a provider can be in: created by [NewSubnetProvider], then
    any number of [Get] calls, changes of the environment and sweeps of the
    janitor at the current instant. *)
Inductive reachable_world `{GoRuntime} `{Platform} : World -> Prop :=
  | reachable_new (e : Env) : reachable_world (NewSubnetProvider e)
  | reachable_Get w ctx p c out w' :
      reachable_world w -> Get ctx p c w = Some (out, w') -> reachable_world w'
  | reachable_env w e : reachable_world w -> reachable_world (with_env w e)
  | reachable_sweep w : reachable_world w -> reachable_world (swept w (UnixNano (env w))).

(** Two tags, two subnets that read the same through [aws.StringValue]. *)
Definition same_tag (t t' : Tag) : Prop :=
  aws_StringValue (Key t) = aws_StringValue (Key t')
  /\ aws_StringValue (Value t) = aws_StringValue (Value t').

Definition same_subnet (x x' : Subnet) : Prop :=
  aws_StringValue (AvailabilityZone x) = aws_StringValue (AvailabilityZone x')
  /\ Forall2 same_tag (Tags x) (Tags x').

(** Whether any constraint is present. *)
Definition constrained (c : Constraints) : bool :=
  match SubnetName c, SubnetTagKey c, Zones c with
  | None, None, [] => false
  | _, _, _ => true
  end.

(** ** A concrete platform, for running the definitions *)

Module Demo.

Record provisioner := mkProvisioner { pname : string; cluster : string }.

(** The environment: a clock, and whether the service answers. *)
Record environment := mkEnv { clock : Z; reachable : bool }.

Definition s1 : Subnet :=
  mkSubnet (Some "s1") (Some "us-east-1a") [mkTag (Some "Name") (Some "a")].
Definition s2 : Subnet :=
  mkSubnet (Some "s2") (Some "us-east-1b") [mkTag (Some "Name") (Some "b")].
(** A malformed subnet: two tags with key ["Name"]. *)
Definition s3 : Subnet :=
  mkSubnet (Some "s3") (Some "us-east-1a")
    [mkTag (Some "Name") (Some "b"); mkTag (Some "Name") (Some "a")].

Definition transport_error : error :=
  errorString "RequestCanceled: request context canceled".

#[export] Instance runtime : GoRuntime := {| growcap := fun old _ => (old + old)%nat |}.

#[export] Instance platform : Platform := {|
  Ctx := unit;
  Provisioner := provisioner;
  ClusterName := cluster;
  Env := environment;
  UnixNano := clock;
  DescribeSubnets := fun _ _ e =>
    (if reachable e then inl [s1; s2] else inr transport_error,
     mkEnv (clock e + 1000000) (reachable e));
  CacheTTL := 60 * 1000000000;
  CacheCleanupInterval := 600 * 1000000000;
  ClusterTagKeyFormat := "kubernetes.io/cluster/%s"
|}.

Definition background : Ctx := tt.

Definition prod : Provisioner := mkProvisioner "default" "prod".
Definition prod' : Provisioner := mkProvisioner "batch" "prod".
Definition staging : Provisioner := mkProvisioner "default" "staging".

Definition no_constraints : Constraints := mkConstraints None None [].
Definition named_a : Constraints := mkConstraints (Some "a") None [].
Definition in_1b : Constraints := mkConstraints None None ["us-east-1b"].
Definition tagged_Name : Constraints := mkConstraints None (Some "Name") [].

(** A fresh provider at instant [1000], service up or down. *)
Definition up : World := NewSubnetProvider (mkEnv 1000 true).
Definition down : World := NewSubnetProvider (mkEnv 1000 false).

(** The provider after one successful resolution for [prod]. *)
Definition warm : World :=
  match Get background prod no_constraints up with
  | Some (_, w) => w
  | None => up
  end.

(** The entry that resolution leaves in the store. *)
Definition warm_item : Item := mkItem (mkSlice (arrayptr 0) 2 2) 60001001000.

(** The environment after one remote call from [up] or [down]. *)
Definition later (reachable : bool) : Env := mkEnv 1001000 reachable.

(** The subnets a first resolution for [prod] yields under [c]. *)
Definition resolve (c : Constraints) : option (list Subnet) :=
  match Get background prod c up with
  | Some ((r, None), w) => view r (heap w)
  | _ => None
  end.

(** A heap holding [s1; s2; s3] in an array of capacity 4. *)
Definition heap3 : list array := [[Some s1; Some s2; Some s3; None]].
Definition slice3 : slice := mkSlice (arrayptr 0) 3 4.

(** The provider [warm] once the clock has passed the entry's expiry. *)
Definition expired : World := with_env warm (mkEnv 70000000000 true).

(** The provider after a further resolution for [prod] from [expired]. *)
Definition refreshed : World :=
  match Get background prod no_constraints expired with
  | Some (_, w) => w
  | None => expired
  end.

(** Two subnets that differ only in nil against empty strings. *)
Definition bare : Subnet := mkSubnet None None [mkTag (Some "Name") None].
Definition bare' : Subnet :=
  mkSubnet None (Some "") [mkTag (Some "Name") (Some "")].

End Demo.

(** The same platform with a [CacheTTL] of zero. *)
Module DemoForever.

#[local] Existing Instance Demo.runtime.

#[local] Instance platform : Platform := {|
  Ctx := unit;
  Provisioner := Demo.provisioner;
  ClusterName := Demo.cluster;
  Env := Demo.environment;
  UnixNano := Demo.clock;
  DescribeSubnets := fun _ _ e =>
    (if Demo.reachable e then inl [Demo.s1; Demo.s2] else inr Demo.transport_error,
     Demo.mkEnv (Demo.clock e + 1000000) (Demo.reachable e));
  CacheTTL := 0;
  CacheCleanupInterval := 600 * 1000000000;
  ClusterTagKeyFormat := "kubernetes.io/cluster/%s"
|}.

Definition background : Ctx := tt.
Definition prod : Provisioner := Demo.mkProvisioner "default" "prod".
Definition up : World := NewSubnetProvider (Demo.mkEnv 1000 true).
Definition fetched : slice * option error := (mkSlice (arrayptr 0) 2 2, None).
Definition warm : World :=
  match Get background prod Demo.no_constraints up with
  | Some (_, w) => w
  | None => up
  end.
Definition stored : Item := mkItem (mkSlice (arrayptr 0) 2 2) 0.
Definition much_later : Env := Demo.mkEnv 9000000000000000000 false.

End DemoForever.

(** * Properties *)

(** ** Well-formed slices *)

Section SliceFacts.
Context `{GoRuntime}.
Implicit Types (s r : slice) (h k : list array) (xs ys : list Subnet) (a : array).

Lemma mapM_id_Some a xs : mapM id a = Some xs <-> a = Some <$> xs.
Proof.
  rewrite mapM_Some. split.
  - induction 1 as [|o x a' xs' Hox _ IH]; simpl in *; [done | by subst].
  - intros ->. induction xs; constructor; done.
Qed.

Lemma view_array s h l xs :
  data s = arrayptr l ->
  view s h = Some xs <->
  exists a, h !! l = Some a /\ (len s <= cap s)%nat /\ cap s = length a
            /\ take (len s) a = Some <$> xs.
Proof.
  intros Hd. unfold view. rewrite Hd. split.
  - destruct (h !! l) as [a|]; [|done]. case_decide as Hc; [|done].
    rewrite mapM_id_Some. intros Ht. exists a. destruct Hc. auto.
  - intros (a & -> & Hle & Hcap & Ht). rewrite decide_True by done.
    by apply mapM_id_Some.
Qed.

Lemma view_no_array s h xs :
  (forall l, data s <> arrayptr l) ->
  view s h = Some xs <-> len s = 0%nat /\ cap s = 0%nat /\ xs = [].
Proof.
  intros Hd. unfold view. destruct (data s) eqn:E; try (by destruct (Hd l)).
  all: case_decide as Hc; split.
  all: try (intros [= <-]; destruct Hc; auto).
  all: try (intros (? & ? & ->); done).
  all: try done.
  all: intros (? & ? & _); destruct Hc; auto.
Qed.

Lemma view_length s h xs : view s h = Some xs -> length xs = len s.
Proof.
  destruct (data s) as [| |l] eqn:E.
  3: { rewrite (view_array _ _ l) by done. intros (a & _ & Hle & Hcap & Ht).
       apply (f_equal length) in Ht. rewrite length_fmap, length_take in Ht. lia. }
  all: rewrite view_no_array by (rewrite E; done).
  all: intros (Hl & _ & Hx); subst xs; by rewrite Hl.
Qed.

Lemma view_index s h xs i :
  view s h = Some xs -> (i < len s)%nat -> index s i h = xs !! i.
Proof.
  intros Hv Hi. unfold index. rewrite decide_True by done.
  destruct (data s) as [| |l] eqn:E.
  3: { destruct (proj1 (view_array s h l xs E) Hv) as (a & Hl & Hle & Hcap & Ht).
       rewrite Hl. rewrite <- (lookup_take_lt a (len s) i) by done. rewrite Ht.
       rewrite list_lookup_fmap. by destruct (xs !! i). }
  all: apply view_no_array in Hv; [lia | rewrite E; done].
Qed.

Lemma view_cells s h xs : view s h = Some xs -> cells s h = Some (Some <$> xs).
Proof.
  intros Hv. unfold cells. destruct (data s) as [| |l] eqn:E.
  3: { destruct (proj1 (view_array s h l xs E) Hv) as (a & Hl & Hle & Hcap & Ht).
       rewrite Hl, decide_True by lia. by rewrite Ht. }
  all: apply view_no_array in Hv as (Hl & _ & Hx); [|rewrite E; done].
  all: rewrite decide_True by done; by subst xs.
Qed.

Lemma view_app s h k xs : view s h = Some xs -> view s (h ++ k) = Some xs.
Proof.
  destruct (data s) as [| |l] eqn:E.
  3: { rewrite !(view_array _ _ l) by done. intros (a & Hl & ?).
       exists a. split; [|done]. by apply lookup_app_l_Some. }
  all: rewrite !view_no_array by (rewrite E; done); done.
Qed.

(** The slice over a freshly allocated array of [subnets]. *)
Lemma view_fetched (h : list array) (subnets : list Subnet) :
  view (mkSlice (arrayptr (length h)) (length subnets) (length subnets))
       (h ++ [Some <$> subnets]) = Some subnets.
Proof.
  apply (view_array _ _ (length h)); [done|]. simpl.
  exists (Some <$> subnets). rewrite list_lookup_middle by done.
  rewrite length_fmap. repeat split; try done.
  by rewrite <- (length_fmap Some), firstn_all.
Qed.

End SliceFacts.

(** ** [append] and [filter] on the heap *)

Section FilterFacts.
Context `{GoRuntime}.
Implicit Types (s r : slice) (h k : list array) (xs ys : list Subnet) (a : array).

Lemma append_spec h0 k r x ys :
  owned (length h0) r ->
  view r (h0 ++ k) = Some ys ->
  exists r' k',
    append r x (h0 ++ k) = Some (r', h0 ++ k')
    /\ view r' (h0 ++ k') = Some (ys ++ [x])
    /\ owned (length h0) r'
    /\ (exists l, data r' = arrayptr l).
Proof.
  intros Hown Hv. unfold append.
  pose proof (view_length _ _ _ Hv) as Hlen.
  destruct (decide (len r < cap r)%nat) as [Hroom|Hfull].
  - destruct (data r) as [| |l] eqn:E.
    1,2: apply view_no_array in Hv; [lia | rewrite E; done].
    destruct (proj1 (view_array r _ l ys E) Hv) as (a & Hl & Hle & Hcap & Ht).
    rewrite Hl, decide_True by lia.
    unfold owned in Hown. rewrite E in Hown.
    exists (mkSlice (arrayptr l) (S (len r)) (cap r)),
           (<[(l - length h0)%nat := <[len r := Some x]> a]> k).
    split; [by rewrite insert_app_r_alt|]. split; [|split; [done|by exists l]].
    apply (view_array _ _ l); [done|]. simpl.
    exists (<[len r := Some x]> a). split.
    { rewrite <- insert_app_r_alt by done. apply list_lookup_insert_eq.
      by eapply lookup_lt_Some. }
    rewrite length_insert. repeat split; [lia|done|].
    rewrite (take_S_r _ _ (Some x)) by (apply list_lookup_insert_eq; lia).
    rewrite take_insert_ge by done. by rewrite Ht, fmap_app.
  - rewrite (view_cells _ _ _ Hv).
    set (newcap := Nat.max _ _).
    set (a := (Some <$> ys) ++ Some x :: replicate (newcap - S (len r)) None).
    exists (mkSlice (arrayptr (length (h0 ++ k))) (S (len r)) newcap), (k ++ [a]).
    split; [by rewrite app_assoc|]. split; [|split].
    + apply (view_array _ _ (length (h0 ++ k))); [done|]. simpl.
      exists a. split; [by rewrite app_assoc, list_lookup_middle|].
      assert (S (len r) <= newcap)%nat by apply Nat.le_max_l.
      split; [done|]. split.
      { unfold a. rewrite length_app, length_fmap. simpl. rewrite length_replicate. lia. }
      unfold a. rewrite (cons_middle (Some x)), app_assoc.
      rewrite take_app_length' by (rewrite length_app, length_fmap; simpl; lia).
      by rewrite fmap_app.
    + unfold owned. simpl. rewrite length_app. lia.
    + by eexists.
Qed.

Lemma filter_loop_spec (p : Subnet -> bool) s h0 xs :
  view s h0 = Some xs ->
  forall n i r k,
    (i + n = len s)%nat ->
    owned (length h0) r ->
    (data r = zerobase \/ exists l, data r = arrayptr l) ->
    view r (h0 ++ k) = Some (List.filter p (take i xs)) ->
    exists r' k',
      filter_loop p s i n r (h0 ++ k) = Some (r', h0 ++ k')
      /\ view r' (h0 ++ k') = Some (List.filter p xs)
      /\ owned (length h0) r'
      /\ (data r' = zerobase \/ exists l, data r' = arrayptr l).
Proof.
  intros Hs. pose proof (view_length _ _ _ Hs) as Hlen.
  induction n as [|n IH]; intros i r k Hin Hown Hnn Hr; simpl.
  - exists r, k. rewrite Nat.add_0_r in Hin. subst i.
    rewrite <- Hlen, firstn_all in Hr. done.
  - rewrite (view_index s (h0 ++ k) xs i) by (by apply view_app || lia).
    destruct (xs !! i) as [x|] eqn:Hx.
    2: { apply lookup_ge_None in Hx. lia. }
    assert (Hstep : List.filter p (take (S i) xs)
                    = List.filter p (take i xs) ++ (if p x then [x] else [])).
    { rewrite (take_S_r _ _ x) by done. rewrite List.filter_app. simpl.
      by destruct (p x). }
    destruct (p x).
    + destruct (append_spec h0 k r x _ Hown Hr) as (r1 & k1 & -> & Hr1 & Hown1 & Hnn1).
      apply IH; [lia|done|by right|by rewrite Hstep].
    + apply IH; [lia|done|done|]. by rewrite Hstep, app_nil_r.
Qed.

Lemma filter_spec (p : Subnet -> bool) s h xs :
  view s h = Some xs ->
  exists r k,
    filter p s h = Some (r, h ++ k)
    /\ view r (h ++ k) = Some (List.filter p xs)
    /\ owned (length h) r
    /\ (data r = zerobase \/ exists l, data r = arrayptr l).
Proof.
  intros Hs. unfold filter.
  destruct (filter_loop_spec p s h xs Hs (len s) 0%nat empty_slice [])
    as (r & k & Hrun & Hr & Hown & Hnn); try done.
  - by left.
  - rewrite app_nil_r in Hrun. by exists r, k.
Qed.

End FilterFacts.

(** ** Formatting *)

Section FormatFacts.

Lemma string_app_cons c (s t : string) : String c s +:+ t = String c (s +:+ t).
Proof. reflexivity. Qed.

Lemma string_app_nil_r (s : string) : s +:+ "" = s.
Proof.
  induction s as [|c s IH]; [done|]. by rewrite string_app_cons, IH.
Qed.

Lemma doPrintf_literal wrapErrs (pre rest : string) arg :
  percent_free pre = true ->
  doPrintf wrapErrs (pre +:+ rest) arg = pre +:+ doPrintf wrapErrs rest arg.
Proof.
  induction pre as [|c pre IH]; [done|]. simpl.
  intros [Hc Hpre]%andb_prop. apply negb_true_iff in Hc.
  rewrite !string_app_cons. simpl. by rewrite Hc, IH.
Qed.

Lemma doPrintf_tail wrapErrs (post : string) :
  percent_free post = true -> doPrintf wrapErrs post None = post.
Proof.
  intros Hp. rewrite <- (string_app_nil_r post) at 1.
  rewrite doPrintf_literal by done. apply string_app_nil_r.
Qed.

Lemma Sprintf_substitutes (pre post a : string) :
  percent_free pre = true -> percent_free post = true ->
  fmt_Sprintf (pre +:+ "%s" +:+ post) a = pre +:+ a +:+ post.
Proof.
  intros Hpre Hpost. unfold fmt_Sprintf.
  rewrite doPrintf_literal by done. rewrite !string_app_cons. simpl.
  by rewrite doPrintf_tail.
Qed.

Lemma Errorf_describing (cause : error) :
  fmt_Errorf "describing subnets, %w" cause
  = wrapError ("describing subnets, " +:+ Error cause) cause.
Proof.
  unfold fmt_Errorf. f_equal.
  change "describing subnets, %w" with ("describing subnets, " +:+ "%w").
  rewrite doPrintf_literal by done. simpl. by rewrite string_app_nil_r.
Qed.

End FormatFacts.

(** ** The cache and the resolver *)

Section ProviderFacts.
Context `{GoRuntime} `{Platform}.
Implicit Types (w : World) (s r : slice) (xs base : list Subnet) (c : Constraints).

Lemma cache_Get_live (ca : Cache) k it now :
  items ca !! k = Some it -> live it now -> cache_Get ca k now = Some (Object it).
Proof.
  intros Hk Hlive. unfold cache_Get. rewrite Hk.
  destruct (decide (0 < Expiration it)); [|done].
  destruct (decide (Expiration it < now)); [|done].
  by destruct Hlive.
Qed.

Lemma cache_Get_Some (ca : Cache) k now s :
  cache_Get ca k now = Some s ->
  exists it, items ca !! k = Some it /\ live it now /\ Object it = s.
Proof.
  unfold cache_Get, live. destruct (items ca !! k) as [it|]; [|done].
  repeat case_decide; intros [= <-]; exists it; (split; [done|split; [lia|done]]).
Qed.

Lemma cache_Get_expired (ca : Cache) k it now :
  items ca !! k = Some it -> 0 < Expiration it < now -> cache_Get ca k now = None.
Proof.
  intros Hk [Hpos Hlt]. unfold cache_Get. rewrite Hk.
  by rewrite !decide_True.
Qed.

(** The janitor's timing does not show: a sweep at an earlier instant
    removes only entries that [Get] would no longer return. *)
Lemma cache_Get_after_sweep (ca : Cache) k t now :
  t <= now ->
  cache_Get (cache_DeleteExpired ca t) k now = cache_Get ca k now.
Proof.
  intros Htn. unfold cache_Get, cache_DeleteExpired. simpl.
  destruct (items ca !! k) as [it|] eqn:Hk.
  - destruct (decide (0 < Expiration it /\ Expiration it < t)) as [[Hpos Hlt]|Hkeep].
    + rewrite (proj2 (map_lookup_filter_None _ _ k)).
      * rewrite decide_True by done. by rewrite decide_True by lia.
      * right. intros x Hx Hp. rewrite Hk in Hx. injection Hx as <-.
        apply Hp. done.
    + by rewrite (proj2 (map_lookup_filter_Some _ _ k it)).
  - rewrite (proj2 (map_lookup_filter_None _ _ k)); [done|by left].
Qed.

Lemma getSubnets_hit ctx p w it :
  items (cache w) !! ClusterName p = Some it ->
  live it (UnixNano (env w)) ->
  getSubnets ctx p w = Some ((Object it, None), w).
Proof.
  intros Hk Hlive. unfold getSubnets, bind, s_cache_Get, bind, time_Now.
  by rewrite (cache_Get_live _ _ it).
Qed.

Lemma getSubnets_fetch_ok ctx p w subnets e' :
  cache_Get (cache w) (ClusterName p) (UnixNano (env w)) = None ->
  DescribeSubnets ctx (discovery_input (ClusterName p)) (env w) = (inl subnets, e') ->
  let fetched := mkSlice (arrayptr (length (heap w))) (length subnets) (length subnets) in
  getSubnets ctx p w
  = Some ((fetched, None),
          mkWorld e' (heap w ++ [Some <$> subnets])
            (cache_Set (cache w) (ClusterName p) fetched CacheTTL (UnixNano e'))
            (trace w ++ [DescribeSubnetsCall (discovery_input (ClusterName p))]
                     ++ [Debugf "Successfully discovered %d subnets for cluster %s"
                           (length subnets) (ClusterName p)])).
Proof.
  intros Hmiss Hcall. unfold getSubnets, bind, s_cache_Get, bind, time_Now.
  rewrite Hmiss. unfold DescribeSubnetsWithContext, bind, emit. simpl.
  unfold discovery_input, aws_String in *. rewrite Hcall. simpl.
  unfold ret. by rewrite <- app_assoc.
Qed.

Lemma getSubnets_fetch_fails ctx p w cause e' :
  cache_Get (cache w) (ClusterName p) (UnixNano (env w)) = None ->
  DescribeSubnets ctx (discovery_input (ClusterName p)) (env w) = (inr cause, e') ->
  getSubnets ctx p w
  = Some ((nil_slice, Some (wrapError ("describing subnets, " +:+ Error cause) cause)),
          mkWorld e' (heap w) (cache w)
            (trace w ++ [DescribeSubnetsCall (discovery_input (ClusterName p))])).
Proof.
  intros Hmiss Hcall. unfold getSubnets, bind, s_cache_Get, bind, time_Now.
  rewrite Hmiss. unfold DescribeSubnetsWithContext, bind, emit. simpl.
  unfold discovery_input, aws_String in *. rewrite Hcall. simpl.
  unfold ret. by rewrite Errorf_describing.
Qed.

Lemma s_filter_spec (p : Subnet -> bool) s xs e h0 k ca tr :
  view s (h0 ++ k) = Some xs ->
  exists r k',
    s_filter p s (mkWorld e (h0 ++ k) ca tr) = Some (r, mkWorld e (h0 ++ k') ca tr)
    /\ view r (h0 ++ k') = Some (List.filter p xs)
    /\ owned (length h0) r
    /\ (forall t zs, view t (h0 ++ k) = Some zs -> view t (h0 ++ k') = Some zs).
Proof.
  intros Hs. destruct (filter_spec p s (h0 ++ k) xs Hs) as (r & k1 & Hrun & Hr & Hown & _).
  exists r, (k ++ k1). unfold s_filter. simpl. rewrite Hrun, app_assoc.
  split; [done|]. split; [done|]. split.
  - unfold owned in *. destruct (data r); try done. rewrite length_app in Hown. lia.
  - intros t zs Ht. by apply view_app.
Qed.

Lemma Get_error ctx p c w s e w1 :
  getSubnets ctx p w = Some ((s, Some e), w1) ->
  Get ctx p c w = Some ((nil_slice, Some e), w1).
Proof. intros Hget. unfold Get, bind. by rewrite Hget. Qed.

Lemma name_stage_run c s xs e h ca tr :
  view s h = Some xs ->
  exists r k,
    match GetSubnetName c with
    | Some _ as name => s_filter (byName (aws_StringValue name)) s
    | None => ret s
    end (mkWorld e h ca tr) = Some (r, mkWorld e (h ++ k) ca tr)
    /\ view r (h ++ k) = Some (stage_name c xs)
    /\ (r = s \/ owned (length h) r).
Proof.
  intros Hs. unfold GetSubnetName, stage_name. destruct (SubnetName c) as [name|].
  - destruct (s_filter_spec (byName name) s xs e h [] ca tr)
      as (r & k & Hrun & ? & ? & _); [by rewrite app_nil_r|].
    rewrite app_nil_r in Hrun. exists r, k. auto.
  - exists s, []. unfold ret. rewrite app_nil_r. auto.
Qed.

Lemma tagKey_stage_run c s xs e h ca tr :
  view s h = Some xs ->
  exists r k,
    match GetSubnetTagKey c with
    | Some tagKey => s_filter (byTagKey tagKey) s
    | None => ret s
    end (mkWorld e h ca tr) = Some (r, mkWorld e (h ++ k) ca tr)
    /\ view r (h ++ k) = Some (stage_tagKey c xs)
    /\ (r = s \/ owned (length h) r).
Proof.
  intros Hs. unfold GetSubnetTagKey, stage_tagKey.
  destruct (SubnetTagKey c) as [tagKey|].
  - destruct (s_filter_spec (byTagKey tagKey) s xs e h [] ca tr)
      as (r & k & Hrun & ? & ? & _); [by rewrite app_nil_r|].
    rewrite app_nil_r in Hrun. exists r, k. auto.
  - exists s, []. unfold ret. rewrite app_nil_r. auto.
Qed.

Lemma zones_stage_run c s xs e h ca tr :
  view s h = Some xs ->
  exists r k,
    (if decide (length (Zones c) ≠ 0%nat)
     then s_filter (byZones (Zones c)) s
     else ret s) (mkWorld e h ca tr) = Some (r, mkWorld e (h ++ k) ca tr)
    /\ view r (h ++ k) = Some (stage_zones c xs)
    /\ (r = s \/ owned (length h) r).
Proof.
  intros Hs. unfold stage_zones. destruct (Zones c) as [|zone zones].
  - exists s, []. unfold ret. simpl. rewrite app_nil_r. auto.
  - destruct (s_filter_spec (byZones (zone :: zones)) s xs e h [] ca tr)
      as (r & k & Hrun & ? & ? & _); [by rewrite app_nil_r|].
    rewrite app_nil_r in Hrun. exists r, k. auto.
Qed.

Lemma owned_app (h k : list array) r : owned (length (h ++ k)) r -> owned (length h) r.
Proof.
  unfold owned. destruct (data r); try done. rewrite length_app. lia.
Qed.

Lemma Get_narrows ctx p c w s0 w1 base :
  getSubnets ctx p w = Some ((s0, None), w1) ->
  view s0 (heap w1) = Some base ->
  exists r k,
    Get ctx p c w = Some ((r, None), mkWorld (env w1) (heap w1 ++ k) (cache w1) (trace w1))
    /\ view r (heap w1 ++ k) = Some (narrow c base)
    /\ (r = s0 \/ owned (length (heap w1)) r).
Proof.
  intros Hget Hbase. unfold Get, bind. rewrite Hget. destruct w1 as [e h0 ca tr].
  cbv beta iota. unfold env, heap, cache, trace in *.
  destruct (name_stage_run c s0 base e h0 ca tr Hbase) as (r1 & k1 & -> & Hr1 & Ho1).
  destruct (tagKey_stage_run c r1 _ e _ ca tr Hr1) as (r2 & k2 & -> & Hr2 & Ho2).
  destruct (zones_stage_run c r2 _ e _ ca tr Hr2) as (r3 & k3 & -> & Hr3 & Ho3).
  exists r3, (k1 ++ k2 ++ k3). unfold ret, narrow. rewrite !app_assoc.
  split; [done|]. split; [done|].
  destruct Ho3 as [->|Ho3]; [|right; by do 2 apply owned_app in Ho3].
  destruct Ho2 as [->|Ho2]; [|right; by apply owned_app in Ho2].
  done.
Qed.

Lemma Get_unconstrained ctx p c w :
  SubnetName c = None -> SubnetTagKey c = None -> Zones c = [] ->
  Get ctx p c w
  = match getSubnets ctx p w with
    | Some ((s0, None), w1) => Some ((s0, None), w1)
    | Some ((_, Some e), w1) => Some ((nil_slice, Some e), w1)
    | None => None
    end.
Proof.
  intros Hn Ht Hz. unfold Get, bind, GetSubnetName, GetSubnetTagKey.
  rewrite Hn, Ht, Hz. destruct (getSubnets ctx p w) as [[[s0 [e|]] w1]|]; done.
Qed.

(** From a world whose cached slices are well formed [getSubnets] returns,
    with a well-formed slice unless the fetch failed, and leaves such a
    world. *)
Lemma getSubnets_returns ctx p w :
  cache_ok w ->
  exists s0 err w1,
    getSubnets ctx p w = Some ((s0, err), w1)
    /\ cache_ok w1
    /\ (err = None -> is_Some (view s0 (heap w1))).
Proof.
  intros Hok.
  destruct (cache_Get (cache w) (ClusterName p) (UnixNano (env w))) as [s|] eqn:Hc.
  - apply cache_Get_Some in Hc as (it & Hk & Hlive & <-).
    eexists _, _, _. split; [exact (getSubnets_hit ctx p w it Hk Hlive)|].
    split; [done|]. intros _. by apply (Hok _ _ Hk).
  - destruct (DescribeSubnets ctx (discovery_input (ClusterName p)) (env w))
      as [[subnets|cause] e'] eqn:Hcall.
    + pose proof (getSubnets_fetch_ok ctx p w subnets e' Hc Hcall) as Hget.
      simpl in Hget. eexists _, _, _. split; [exact Hget|]. split.
      * intros k' it' Hk'. simpl in *. unfold cache_Set in Hk'. simpl in Hk'.
        apply lookup_insert_Some in Hk' as [[_ <-]|[_ Hk']]; simpl.
        -- exists subnets. apply view_fetched.
        -- destruct (Hok _ _ Hk') as [zs Hzs]. exists zs. by apply view_app.
      * intros _. exists subnets. apply view_fetched.
    + pose proof (getSubnets_fetch_fails ctx p w cause e' Hc Hcall) as Hget.
      eexists _, _, _. split; [exact Hget|]. split; [|done].
      intros k' it' Hk'. by apply (Hok k' it').
Qed.

(** So does [Get]: it never panics. *)
Lemma Get_returns ctx p c w :
  cache_ok w ->
  exists out w', Get ctx p c w = Some (out, w') /\ cache_ok w'.
Proof.
  intros Hok.
  destruct (getSubnets_returns ctx p w Hok) as (s0 & [e|] & w1 & Hget & Hok1 & Hv).
  - eexists _, _. split; [exact (Get_error ctx p c w _ _ _ Hget)|done].
  - destruct (Hv eq_refl) as [base Hbase].
    destruct (Get_narrows ctx p c w s0 w1 base Hget Hbase) as (r & k & Hrun & _).
    eexists _, _. split; [exact Hrun|].
    intros k' it' Hk'. simpl in *. destruct (Hok1 _ _ Hk') as [zs Hzs].
    exists zs. by apply view_app.
Qed.

Lemma NewSubnetProvider_ok (e : Env) : cache_ok (NewSubnetProvider e).
Proof. intros k it Hk. simpl in Hk. by rewrite lookup_empty in Hk. Qed.

End ProviderFacts.

(** ** The predicates *)

Section PredicateFacts.
Implicit Types (tags pre post : list Tag) (tag : Tag) (zones : list string).

Lemma byName_tags_first name tags :
  byName_tags name tags = true <->
  exists pre tag post,
    tags = pre ++ tag :: post
    /\ Forall (fun t => aws_StringValue (Key t) <> "Name") pre
    /\ aws_StringValue (Key tag) = "Name"
    /\ aws_StringValue (Value tag) = name.
Proof.
  induction tags as [|t rest IH]; simpl.
  - split; [done|]. intros (pre & tag & post & Heq & _). by destruct pre.
  - destruct (String.eqb_spec (aws_StringValue (Key t)) "Name") as [Hk|Hk].
    + rewrite String.eqb_eq. split.
      * intros Hv. exists [], t, rest. by repeat split.
      * intros (pre & tag & post & Heq & Hpre & _ & Hv). destruct pre as [|t' pre].
        { by injection Heq as -> _. }
        injection Heq as <- _. by apply Forall_cons_1 in Hpre as [? _].
    + rewrite IH. split.
      * intros (pre & tag & post & -> & Hpre & Hkey & Hv).
        exists (t :: pre), tag, post. repeat split; try done. by constructor.
      * intros (pre & tag & post & Heq & Hpre & Hkey & Hv). destruct pre as [|t' pre].
        { injection Heq as <- _. done. }
        injection Heq as <- ->. apply Forall_cons_1 in Hpre as [_ Hpre].
        by exists pre, tag, post.
Qed.

Lemma byName_tags_single name tags :
  (length (List.filter (fun t => String.eqb (aws_StringValue (Key t)) "Name") tags) <= 1)%nat ->
  byName_tags name tags = true <->
  exists tag, tag ∈ tags /\ aws_StringValue (Key tag) = "Name"
              /\ aws_StringValue (Value tag) = name.
Proof.
  induction tags as [|t rest IH]; simpl.
  - intros _. split; [done|]. intros (tag & Hin & _). by apply elem_of_nil in Hin.
  - destruct (String.eqb_spec (aws_StringValue (Key t)) "Name") as [Hk|Hk]; simpl.
    + intros Hone. rewrite String.eqb_eq. split.
      * intros Hv. exists t. split; [left|done].
      * intros (tag & Hin & Hkey & Hv). apply elem_of_cons in Hin as [->|Hin]; [done|].
        exfalso. apply list_elem_of_In in Hin.
        assert (In tag (List.filter
                  (fun t => String.eqb (aws_StringValue (Key t)) "Name") rest)) as Hf.
        { apply List.filter_In. split; [done|]. by apply String.eqb_eq. }
        destruct (List.filter _ rest); [done|]. simpl in Hone. lia.
    + intros Hone. rewrite (IH Hone). split.
      * intros (tag & Hin & ?). exists tag. split; [by right|done].
      * intros (tag & Hin & Hkey & Hv). apply elem_of_cons in Hin as [->|Hin]; [done|].
        by exists tag.
Qed.

Lemma byTagKey_tags_spec tagKey tags :
  byTagKey_tags tagKey tags = true <->
  exists tag, tag ∈ tags /\ aws_StringValue (Key tag) = tagKey.
Proof.
  induction tags as [|t rest IH]; simpl.
  - split; [done|]. intros (tag & Hin & _). by apply elem_of_nil in Hin.
  - destruct (String.eqb_spec (aws_StringValue (Key t)) tagKey) as [Hk|Hk].
    + split; [|done]. intros _. exists t. split; [left|done].
    + rewrite IH. split.
      * intros (tag & Hin & ?). exists tag. split; [by right|done].
      * intros (tag & Hin & Hkey). apply elem_of_cons in Hin as [->|Hin]; [done|].
        by exists tag.
Qed.

Lemma byTagKey_tags_values tagKey (f : Tag -> option string) tags :
  byTagKey_tags tagKey ((fun t => mkTag (Key t) (f t)) <$> tags)
  = byTagKey_tags tagKey tags.
Proof.
  induction tags as [|t rest IH]; [done|]. rewrite fmap_cons. simpl.
  by rewrite IH.
Qed.

Lemma byZones_zones_spec subnet zones :
  byZones_zones subnet zones = true <->
  aws_StringValue (AvailabilityZone subnet) ∈ zones.
Proof.
  induction zones as [|zone rest IH]; simpl.
  - split; [done|]. intros Hin. by apply elem_of_nil in Hin.
  - destruct (String.eqb_spec (aws_StringValue (AvailabilityZone subnet)) zone) as [Hz|Hz].
    + split; [|done]. intros _. rewrite Hz. left.
    + rewrite IH. split; [by right|].
      intros Hin. by apply elem_of_cons in Hin as [?|?].
Qed.

End PredicateFacts.

(** ** Narrowing on lists *)

Section NarrowFacts.
Implicit Types (xs : list Subnet) (c : Constraints) (p q : Subnet -> bool).

Lemma filter_filter p q xs :
  List.filter q (List.filter p xs) = List.filter (fun x => p x && q x) xs.
Proof.
  induction xs as [|x xs IH]; simpl; [done|].
  destruct (p x); simpl; [destruct (q x)|]; by rewrite IH.
Qed.

Lemma filter_comm p q xs :
  List.filter q (List.filter p xs) = List.filter p (List.filter q xs).
Proof.
  rewrite !filter_filter. apply List.filter_ext. intros x. apply andb_comm.
Qed.

Lemma filter_true xs : List.filter (fun _ => true) xs = xs.
Proof. induction xs as [|x xs IH]; simpl; [done | by rewrite IH]. Qed.

Lemma stage_name_filter c xs : stage_name c xs = List.filter (admits_name c) xs.
Proof.
  unfold stage_name, admits_name. destruct (SubnetName c); [done|].
  by rewrite filter_true.
Qed.

Lemma stage_tagKey_filter c xs :
  stage_tagKey c xs = List.filter (admits_tagKey c) xs.
Proof.
  unfold stage_tagKey, admits_tagKey. destruct (SubnetTagKey c); [done|].
  by rewrite filter_true.
Qed.

Lemma stage_zones_filter c xs : stage_zones c xs = List.filter (admits_zones c) xs.
Proof.
  unfold stage_zones, admits_zones. destruct (Zones c); [|done].
  by rewrite filter_true.
Qed.

Lemma narrow_admits c xs : narrow c xs = List.filter (admits c) xs.
Proof.
  unfold narrow.
  rewrite stage_name_filter, stage_tagKey_filter, stage_zones_filter, !filter_filter.
  apply List.filter_ext. intros x. unfold admits. by rewrite andb_assoc.
Qed.

(** A chain of filters keeps what every predicate of the chain accepts. *)
Lemma filter_chain (ps : list (Subnet -> bool)) xs :
  foldr (fun p acc => List.filter p acc) xs ps
  = List.filter (fun x => forallb (fun p => p x) ps) xs.
Proof.
  induction ps as [|p ps IH]; simpl; [by rewrite filter_true|].
  rewrite IH, filter_filter. apply List.filter_ext. intros x. apply andb_comm.
Qed.

Lemma forallb_perm (ps qs : list (Subnet -> bool)) x :
  ps ≡ₚ qs -> forallb (fun p => p x) ps = forallb (fun p => p x) qs.
Proof.
  induction 1 as [|p ps qs _ IH|p q ps|ps qs rs _ IH1 _ IH2]; simpl.
  - done.
  - by rewrite IH.
  - by rewrite !andb_assoc, (andb_comm (q x)).
  - by rewrite IH1.
Qed.

Lemma filter_chain_admits c (order : list (Subnet -> bool)) xs :
  order ≡ₚ [admits_name c; admits_tagKey c; admits_zones c] ->
  foldr (fun p acc => List.filter p acc) xs order = List.filter (admits c) xs.
Proof.
  intros Hperm. rewrite filter_chain. apply List.filter_ext. intros x.
  rewrite (forallb_perm _ _ x Hperm). simpl. unfold admits.
  by rewrite andb_true_r, andb_assoc.
Qed.

End NarrowFacts.

(** * The resolver's contract *)

Section Resolver.
Context `{GoRuntime} `{Platform}.
Implicit Types (w : World) (s r : slice) (xs base : list Subnet) (c : Constraints).

Lemma filter_sublist (f : Subnet -> bool) xs : List.filter f xs `sublist_of` xs.
Proof.
  induction xs as [|x xs IH]; simpl; [constructor|].
  destruct (f x); by constructor.
Qed.

Lemma filter_elem_of (f : Subnet -> bool) xs x :
  x ∈ List.filter f xs <-> x ∈ xs /\ f x = true.
Proof. rewrite !list_elem_of_In. apply List.filter_In. Qed.

(** C1: from any world whose cached slices are well formed, [Get] first
    obtains the base list from [getSubnets]; if that failed it returns the
    error and no list; otherwise it narrows the base list by name, then by
    tag key, then by zone, each stage running only when its constraint is
    present (a name, a tag key, a non-empty zone list) and on the output of
    the stage before.  With no constraint it returns the very slice
    [getSubnets] produced, in the world [getSubnets] left: the base list
    unchanged and in its order. *)
Theorem Get_stages_in_order ctx p c w :
  cache_ok w ->
  exists s0 err w1,
    getSubnets ctx p w = Some ((s0, err), w1)
    /\ match err with
       | Some e => Get ctx p c w = Some ((nil_slice, Some e), w1)
       | None =>
           exists base r w2,
             view s0 (heap w1) = Some base
             /\ Get ctx p c w = Some ((r, None), w2)
             /\ view r (heap w2)
                = Some (stage_zones c (stage_tagKey c (stage_name c base)))
             /\ (SubnetName c = None -> SubnetTagKey c = None -> Zones c = [] ->
                 r = s0 /\ w2 = w1)
       end.
Proof.
  intros Hok.
  destruct (getSubnets_returns ctx p w Hok) as (s0 & [e|] & w1 & Hget & _ & Hv).
  - exists s0, (Some e), w1. split; [done|]. by apply (Get_error ctx p c w s0).
  - exists s0, None, w1. split; [done|]. destruct (Hv eq_refl) as [base Hbase].
    destruct (Get_narrows ctx p c w s0 w1 base Hget Hbase) as (r & k & Hrun & Hr & _).
    eexists base, r, _. split; [done|]. split; [exact Hrun|]. split; [exact Hr|].
    intros Hn Ht Hz. rewrite (Get_unconstrained ctx p c w Hn Ht Hz), Hget in Hrun.
    injection Hrun as <- Hw. by rewrite <- Hw.
Qed.

(** C2: when the cache holds an entry for the cluster's name that has not
    expired, [getSubnets] returns the cached slice and leaves the world as
    it was (no call to the service, no event), [Get] narrows that cached
    list, and any later call for the same cluster name, whatever its
    context and provisioner, finds the same cached slice as long as the
    entry has not expired. *)
Theorem cache_hit_skips_fetch ctx p c w it base :
  items (cache w) !! ClusterName p = Some it ->
  live it (UnixNano (env w)) ->
  view (Object it) (heap w) = Some base ->
  getSubnets ctx p w = Some ((Object it, None), w)
  /\ (exists r k,
        Get ctx p c w
        = Some ((r, None), mkWorld (env w) (heap w ++ k) (cache w) (trace w))
        /\ view r (heap w ++ k) = Some (narrow c base))
  /\ (forall ctx' p' e' h' tr',
        ClusterName p' = ClusterName p ->
        live it (UnixNano e') ->
        getSubnets ctx' p' (mkWorld e' h' (cache w) tr')
        = Some ((Object it, None), mkWorld e' h' (cache w) tr')).
Proof.
  intros Hk Hlive Hbase.
  pose proof (getSubnets_hit ctx p w it Hk Hlive) as Hhit.
  split; [done|]. split.
  - destruct (Get_narrows ctx p c w _ _ base Hhit Hbase) as (r & k & Hrun & Hr & _).
    by exists r, k.
  - intros ctx' p' e' h' tr' Hname Hlive'.
    apply getSubnets_hit; simpl; [by rewrite Hname | done].
Qed.

(** C3, as the code has it: when the remote call fails on a cache miss,
    [Get] returns the nil slice and an error that wraps the cause, its
    message being ["describing subnets, "] followed by the cause's message;
    the heap and the cache are as before, the environment is the one the
    call left and the only event is the call. *)
Theorem Get_fetch_failure ctx p c w cause e' :
  cache_Get (cache w) (ClusterName p) (UnixNano (env w)) = None ->
  DescribeSubnets ctx (discovery_input (ClusterName p)) (env w) = (inr cause, e') ->
  exists e w',
    Get ctx p c w = Some ((nil_slice, Some e), w')
    /\ Unwrap e = Some cause
    /\ Error e = "describing subnets, " +:+ Error cause
    /\ cache w' = cache w
    /\ heap w' = heap w
    /\ env w' = e'
    /\ trace w' = trace w ++ [DescribeSubnetsCall (discovery_input (ClusterName p))].
Proof.
  intros Hmiss Hcall.
  pose proof (getSubnets_fetch_fails ctx p w cause e' Hmiss Hcall) as Hget.
  eexists _, _. split; [exact (Get_error ctx p c w _ _ _ Hget)|]. done.
Qed.

(** C4: [byName] holds exactly when the first tag with key ["Name"] has the
    requested value; a first ["Name"] tag with another value decides against
    the subnet whatever follows it; and for a subnet with at most one
    ["Name"] tag this is the same as having a ["Name"] tag with that value. *)
Theorem byName_first_Name_tag_governs (name : string) (subnet : Subnet) :
  (byName name subnet = true <->
   exists pre tag post,
     Tags subnet = pre ++ tag :: post
     /\ Forall (fun t => aws_StringValue (Key t) <> "Name") pre
     /\ aws_StringValue (Key tag) = "Name"
     /\ aws_StringValue (Value tag) = name)
  /\ (forall pre tag post,
        Tags subnet = pre ++ tag :: post ->
        Forall (fun t => aws_StringValue (Key t) <> "Name") pre ->
        aws_StringValue (Key tag) = "Name" ->
        aws_StringValue (Value tag) <> name ->
        byName name subnet = false)
  /\ ((length (List.filter (fun t => String.eqb (aws_StringValue (Key t)) "Name")
                 (Tags subnet)) <= 1)%nat ->
      (byName name subnet = true <->
       exists tag, tag ∈ Tags subnet
                   /\ aws_StringValue (Key tag) = "Name"
                   /\ aws_StringValue (Value tag) = name)).
Proof.
  unfold byName. split; [apply byName_tags_first|]. split; [|apply byName_tags_single].
  intros pre tag post Heq Hpre Hkey Hv. apply not_true_is_false. intros Ht.
  apply byName_tags_first in Ht as (pre' & tag' & post' & Heq' & Hpre' & Hkey' & Hv').
  rewrite Heq in Heq'. clear Heq.
  revert pre' Heq' Hpre'. induction Hpre as [|t pre Ht Hpre IH]; intros pre' Heq' Hpre'.
  - destruct pre' as [|t' pre'].
    + injection Heq' as -> _. done.
    + injection Heq' as -> _. by apply Forall_cons_1 in Hpre' as [? _].
  - destruct pre' as [|t' pre'].
    + injection Heq' as -> _. done.
    + injection Heq' as _ Heq'. apply Forall_cons_1 in Hpre' as [_ Hpre'].
      by apply (IH pre').
Qed.

(** C5: on a well-formed slice [filter] always returns; its result holds
    exactly the elements that satisfy the predicate, in the order of the
    input (the sublist [List.filter] selects), and is a non-nil slice even
    when nothing matches. *)
Theorem filter_keeps_matching_in_order (predicate : Subnet -> bool) subnets
    (h : list array) xs :
  view subnets h = Some xs ->
  exists result h',
    filter predicate subnets h = Some (result, h')
    /\ view result h' = Some (List.filter predicate xs)
    /\ List.filter predicate xs `sublist_of` xs
    /\ (forall x, x ∈ List.filter predicate xs <-> x ∈ xs /\ predicate x = true)
    /\ data result <> null.
Proof.
  intros Hs.
  destruct (filter_spec predicate subnets h xs Hs) as (r & k & Hrun & Hr & _ & Hnn).
  exists r, (h ++ k). split; [done|]. split; [done|].
  split; [apply filter_sublist|]. split; [apply filter_elem_of|].
  destruct Hnn as [->|[l ->]]; done.
Qed.

(** C6: the list [Get] returns holds exactly the base subnets that every
    present constraint admits, which is what the three stages give in any
    of their orders; and running [filter] with any two predicates in either
    order gives slices with the same elements. *)
Theorem narrowing_order_independent ctx p c w s0 w1 base :
  getSubnets ctx p w = Some ((s0, None), w1) ->
  view s0 (heap w1) = Some base ->
  (exists r w2,
     Get ctx p c w = Some ((r, None), w2)
     /\ view r (heap w2) = Some (List.filter (admits c) base)
     /\ (forall order : list (Subnet -> bool),
           order ≡ₚ [admits_name c; admits_tagKey c; admits_zones c] ->
           view r (heap w2)
           = Some (foldr (fun f acc => List.filter f acc) base order)))
  /\ (forall f g : Subnet -> bool,
      exists r1 h1 r2 h2 r1' h1' r2' h2',
        filter f s0 (heap w1) = Some (r1, h1)
        /\ filter g r1 h1 = Some (r2, h2)
        /\ filter g s0 (heap w1) = Some (r1', h1')
        /\ filter f r1' h1' = Some (r2', h2')
        /\ view r2 h2 = Some (List.filter (fun x => f x && g x) base)
        /\ view r2' h2' = view r2 h2).
Proof.
  intros Hget Hbase. split.
  - destruct (Get_narrows ctx p c w s0 w1 base Hget Hbase) as (r & k & Hrun & Hr & _).
    eexists r, _. split; [exact Hrun|]. rewrite <- narrow_admits. split; [done|].
    intros order Hperm. by rewrite (filter_chain_admits c order base Hperm), <- narrow_admits.
  - intros f g.
    destruct (filter_spec f s0 _ base Hbase) as (r1 & k1 & Hf1 & Hv1 & _).
    destruct (filter_spec g r1 _ _ Hv1) as (r2 & k2 & Hg2 & Hv2 & _).
    destruct (filter_spec g s0 _ base Hbase) as (r1' & k1' & Hg1 & Hv1' & _).
    destruct (filter_spec f r1' _ _ Hv1') as (r2' & k2' & Hf2 & Hv2' & _).
    eexists r1, _, r2, _, r1', _, r2', _.
    repeat (split; [eassumption|]).
    rewrite Hv2, Hv2', filter_filter. split; [done|]. by rewrite filter_comm, filter_filter.
Qed.

(** C7: [byZones] holds exactly when the subnet's availability zone is one
    of the requested zones; and with an empty zone list [Get] runs no zone
    stage: its result is the base list narrowed by name and tag key only. *)
Theorem byZones_member_and_empty_zones :
  (forall (zones : list string) (subnet : Subnet),
     byZones zones subnet = true <->
     aws_StringValue (AvailabilityZone subnet) ∈ zones)
  /\ (forall ctx p c w s0 w1 base,
        Zones c = [] ->
        getSubnets ctx p w = Some ((s0, None), w1) ->
        view s0 (heap w1) = Some base ->
        exists r w2,
          Get ctx p c w = Some ((r, None), w2)
          /\ view r (heap w2) = Some (stage_tagKey c (stage_name c base))).
Proof.
  split; [intros zones subnet; apply byZones_zones_spec|].
  intros ctx p c w s0 w1 base Hz Hget Hbase.
  destruct (Get_narrows ctx p c w s0 w1 base Hget Hbase) as (r & k & Hrun & Hr & _).
  eexists r, _. split; [exact Hrun|].
  unfold narrow, stage_zones in Hr. by rewrite Hz in Hr.
Qed.

(** C8: [byTagKey] holds exactly when some tag of the subnet has the
    requested key, and the values of the tags play no part. *)
Theorem byTagKey_any_value (tagKey : string) (subnet : Subnet) :
  (byTagKey tagKey subnet = true <->
   exists tag, tag ∈ Tags subnet /\ aws_StringValue (Key tag) = tagKey)
  /\ (forall f : Tag -> option string,
        byTagKey tagKey
          (mkSubnet (SubnetId subnet) (AvailabilityZone subnet)
             ((fun t => mkTag (Key t) (f t)) <$> Tags subnet))
        = byTagKey tagKey subnet).
Proof.
  unfold byTagKey. split; [apply byTagKey_tags_spec|].
  intros f. simpl. apply byTagKey_tags_values.
Qed.

End Resolver.

Section CacheAndHeap.
Context `{GoRuntime} `{Platform}.
Implicit Types (w : World) (s r : slice) (xs base : list Subnet) (c : Constraints).

Lemma getSubnets_miss_calls ctx p w :
  cache_Get (cache w) (ClusterName p) (UnixNano (env w)) = None ->
  exists out w' rest,
    getSubnets ctx p w = Some (out, w')
    /\ trace w' = trace w ++ DescribeSubnetsCall (discovery_input (ClusterName p)) :: rest
    /\ env w' = (DescribeSubnets ctx (discovery_input (ClusterName p)) (env w)).2.
Proof.
  intros Hmiss.
  destruct (DescribeSubnets ctx (discovery_input (ClusterName p)) (env w))
    as [[subnets|cause] e'] eqn:Hcall.
  - eexists _, _, _. split; [exact (getSubnets_fetch_ok ctx p w subnets e' Hmiss Hcall)|].
    simpl. done.
  - eexists _, _, []. split; [exact (getSubnets_fetch_fails ctx p w cause e' Hmiss Hcall)|].
    done.
Qed.

(** C9: on a cache miss [getSubnets] makes one remote call, and its request
    carries one filter, on ["tag-key"], with one value:
    [ClusterTagKeyFormat] printed with the cluster's name.  Where the format
    is a literal text around one [%s], that value is the text with the name
    in place of the verb.  Any other miss for the same cluster name, in any
    world, sends the same request. *)
Theorem discovery_filter_from_cluster_name ctx p w :
  cache_Get (cache w) (ClusterName p) (UnixNano (env w)) = None ->
  let request :=
    mkInput [mkFilter (Some "tag-key")
               [Some (fmt_Sprintf ClusterTagKeyFormat (ClusterName p))]] in
  (exists out w' rest,
     getSubnets ctx p w = Some (out, w')
     /\ trace w' = trace w ++ DescribeSubnetsCall request :: rest
     /\ env w' = (DescribeSubnets ctx request (env w)).2)
  /\ (forall pre post,
        ClusterTagKeyFormat = pre +:+ "%s" +:+ post ->
        percent_free pre = true -> percent_free post = true ->
        fmt_Sprintf ClusterTagKeyFormat (ClusterName p)
        = pre +:+ ClusterName p +:+ post)
  /\ (forall ctx2 p2 w2,
        ClusterName p2 = ClusterName p ->
        cache_Get (cache w2) (ClusterName p2) (UnixNano (env w2)) = None ->
        exists out2 w2' rest2,
          getSubnets ctx2 p2 w2 = Some (out2, w2')
          /\ trace w2' = trace w2 ++ DescribeSubnetsCall request :: rest2).
Proof.
  intros Hmiss request. split; [by apply getSubnets_miss_calls|]. split.
  - intros pre post -> Hpre Hpost. by apply Sprintf_substitutes.
  - intros ctx2 p2 w2 Hname Hmiss2.
    destruct (getSubnets_miss_calls ctx2 p2 w2 Hmiss2) as (out2 & w2' & rest2 & Hrun & Htr & _).
    exists out2, w2', rest2. split; [done|]. rewrite Htr. unfold request.
    by rewrite <- Hname.
Qed.

(** C10: [filter] writes only to arrays it has allocated itself: the heap
    it returns extends the one it was given and its result shares no array
    with it.  So a [Get] served from the cache changes neither the store nor
    any array that existed, the cached slice still holds the whole base
    list, and a later [Get] for the same cluster, while the entry lives,
    narrows that whole base list by its own constraints. *)
Theorem filtering_never_mutates_cache ctx p c w it base :
  items (cache w) !! ClusterName p = Some it ->
  live it (UnixNano (env w)) ->
  view (Object it) (heap w) = Some base ->
  (forall (f : Subnet -> bool) s xs,
     view s (heap w) = Some xs ->
     exists r k, filter f s (heap w) = Some (r, heap w ++ k)
                 /\ owned (length (heap w)) r)
  /\ (exists r w',
        Get ctx p c w = Some ((r, None), w')
        /\ cache w' = cache w
        /\ (forall l a, heap w !! l = Some a -> heap w' !! l = Some a)
        /\ (r = Object it \/ owned (length (heap w)) r)
        /\ view (Object it) (heap w') = Some base
        /\ (forall ctx2 p2 c2 e2,
              ClusterName p2 = ClusterName p ->
              live it (UnixNano e2) ->
              exists r2 w2,
                Get ctx2 p2 c2 (with_env w' e2) = Some ((r2, None), w2)
                /\ view r2 (heap w2) = Some (narrow c2 base))).
Proof.
  intros Hk Hlive Hbase. split.
  - intros f s xs Hs.
    destruct (filter_spec f s (heap w) xs Hs) as (r & k & Hrun & _ & Hown & _).
    by exists r, k.
  - pose proof (getSubnets_hit ctx p w it Hk Hlive) as Hhit.
    destruct (Get_narrows ctx p c w _ _ base Hhit Hbase) as (r & k & Hrun & Hr & Hown).
    eexists r, _. split; [exact Hrun|]. simpl.
    split; [done|]. split; [intros l a Hl; by apply lookup_app_l_Some|].
    split; [done|]. split; [by apply view_app|].
    intros ctx2 p2 c2 e2 Hname Hlive2.
    set (w' := with_env _ e2).
    assert (Hhit2 : getSubnets ctx2 p2 w' = Some ((Object it, None), w')).
    { apply getSubnets_hit; simpl; [by rewrite Hname | done]. }
    destruct (Get_narrows ctx2 p2 c2 w' _ _ base Hhit2) as (r2 & k2 & Hrun2 & Hr2 & _).
    { simpl. by apply view_app. }
    eexists r2, _. split; [exact Hrun2|]. exact Hr2.
Qed.

(** A resolution that had to fetch is followed by cache hits for as long as
    the clock has not passed the entry's lifetime. *)
Lemma fetch_then_hit ctx p w subnets e' ctx2 p2 e2 :
  cache_Get (cache w) (ClusterName p) (UnixNano (env w)) = None ->
  DescribeSubnets ctx (discovery_input (ClusterName p)) (env w) = (inl subnets, e') ->
  ClusterName p2 = ClusterName p ->
  UnixNano e2 <= UnixNano e' + CacheTTL ->
  exists s0 w1,
    getSubnets ctx p w = Some ((s0, None), w1)
    /\ view s0 (heap w1) = Some subnets
    /\ getSubnets ctx2 p2 (with_env w1 e2) = Some ((s0, None), with_env w1 e2).
Proof.
  intros Hmiss Hcall Hname Hwithin.
  pose proof (getSubnets_fetch_ok ctx p w subnets e' Hmiss Hcall) as Hget.
  simpl in Hget. eexists _, _. split; [exact Hget|]. split; [apply view_fetched|].
  set (it := mkItem (mkSlice (arrayptr (length (heap w))) (length subnets) (length subnets))
               (if decide (0 < (if decide (CacheTTL = 0) then defaultExpiration (cache w)
                                else CacheTTL))
                then UnixNano e' + (if decide (CacheTTL = 0) then defaultExpiration (cache w)
                                    else CacheTTL)
                else 0)).
  apply (getSubnets_hit ctx2 p2 _ it).
  - simpl. rewrite Hname. unfold cache_Set. simpl. by rewrite lookup_insert_eq.
  - unfold live, it. simpl. repeat case_decide; lia.
Qed.

End CacheAndHeap.

(** * Beyond the contract: effects, lifetimes and aliasing *)

Section Effects.
Context `{GoRuntime} `{Platform}.
Implicit Types (w : World) (s r : slice) (xs base : list Subnet) (c : Constraints).

Lemma remote_calls_app (t1 t2 : list event) :
  remote_calls (t1 ++ t2) = (remote_calls t1 + remote_calls t2)%nat.
Proof. unfold remote_calls. by rewrite List.filter_app, length_app. Qed.

(** What one [getSubnets] does to the world, case by case. *)
Lemma getSubnets_effect ctx p w :
  cache_ok w ->
  exists s0 err w1 k t,
    getSubnets ctx p w = Some ((s0, err), w1)
    /\ heap w1 = heap w ++ k
    /\ trace w1 = trace w ++ t
    /\ remote_calls t
       = match cache_Get (cache w) (ClusterName p) (UnixNano (env w)) with
         | Some _ => 0%nat
         | None => 1%nat
         end
    /\ cache_ok w1
    /\ (err = None -> is_Some (view s0 (heap w1)))
    /\ (cache w1 = cache w
        \/ cache_Get (cache w) (ClusterName p) (UnixNano (env w)) = None
           /\ cache w1 = cache_Set (cache w) (ClusterName p) s0 CacheTTL (UnixNano (env w1))).
Proof.
  intros Hok.
  destruct (cache_Get (cache w) (ClusterName p) (UnixNano (env w))) as [s|] eqn:Hc.
  - apply cache_Get_Some in Hc as (it & Hk & Hlive & <-).
    exists (Object it), None, w, [], []. rewrite !app_nil_r.
    split; [exact (getSubnets_hit ctx p w it Hk Hlive)|].
    repeat split; try done; [|by left]. intros _. by apply (Hok _ _ Hk).
  - destruct (DescribeSubnets ctx (discovery_input (ClusterName p)) (env w))
      as [[subnets|cause] e'] eqn:Hcall.
    + pose proof (getSubnets_fetch_ok ctx p w subnets e' Hc Hcall) as Hget.
      simpl in Hget. eexists _, _, _, _, _. split; [exact Hget|]. simpl.
      split; [done|]. split; [done|]. split; [done|]. split; [|split].
      * intros k' it' Hk'. simpl in *. unfold cache_Set in Hk'. simpl in Hk'.
        apply lookup_insert_Some in Hk' as [[_ <-]|[_ Hk']]; simpl.
        -- exists subnets. apply view_fetched.
        -- destruct (Hok _ _ Hk') as [zs Hzs]. exists zs. by apply view_app.
      * intros _. exists subnets. apply view_fetched.
      * by right.
    + pose proof (getSubnets_fetch_fails ctx p w cause e' Hc Hcall) as Hget.
      eexists _, _, _, [], _. split; [exact Hget|]. simpl. rewrite app_nil_r.
      split; [done|]. split; [done|]. split; [done|]. split; [|split; [done|by left]].
      intros k' it' Hk'. by apply (Hok k' it').
Qed.

(** The same for [Get]: the stages only extend the heap. *)
Lemma Get_effect ctx p c w :
  cache_ok w ->
  exists r err w' k t,
    Get ctx p c w = Some ((r, err), w')
    /\ heap w' = heap w ++ k
    /\ trace w' = trace w ++ t
    /\ remote_calls t
       = match cache_Get (cache w) (ClusterName p) (UnixNano (env w)) with
         | Some _ => 0%nat
         | None => 1%nat
         end
    /\ cache_ok w'
    /\ (cache w' = cache w
        \/ cache_Get (cache w) (ClusterName p) (UnixNano (env w)) = None
           /\ exists s0, cache w' = cache_Set (cache w) (ClusterName p) s0 CacheTTL
                                      (UnixNano (env w'))).
Proof.
  intros Hok.
  destruct (getSubnets_effect ctx p w Hok)
    as (s0 & [e|] & w1 & k & t & Hget & Hh & Ht & Hn & Hok1 & Hv & Hca).
  - exists nil_slice, (Some e), w1, k, t.
    split; [exact (Get_error ctx p c w _ _ _ Hget)|]. repeat split; try done.
    destruct Hca as [?|[? ?]]; [by left|right; eauto].
  - destruct (Hv eq_refl) as [base Hbase].
    destruct (Get_narrows ctx p c w s0 w1 base Hget Hbase) as (r & k2 & Hrun & _).
    eexists r, None, _, (k ++ k2), t. split; [exact Hrun|]. simpl.
    rewrite Hh, app_assoc. repeat split; try done.
    + intros k' it' Hk'. simpl in *. destruct (Hok1 _ _ Hk') as [zs Hzs].
      exists zs. rewrite <- Hh. by apply view_app.
    + destruct Hca as [?|[? ?]]; [by left|right; eauto].
Qed.

End Effects.

Section Reachable.
Context `{GoRuntime} `{Platform}.
Implicit Types (w : World) (s r : slice) (xs base : list Subnet) (c : Constraints).

Lemma swept_ok w t : cache_ok w -> cache_ok (swept w t).
Proof.
  intros Hok k it Hk. simpl in Hk.
  apply map_lookup_filter_Some in Hk as [Hk _]. by apply (Hok k it).
Qed.

Lemma reachable_ok w : reachable_world w -> cache_ok w.
Proof.
  induction 1 as [e|w ctx p c out w' _ IH Hget|w e _ IH|w _ IH].
  - apply NewSubnetProvider_ok.
  - destruct (Get_effect ctx p c w IH) as (r & err & w2 & k & t & Hrun & _ & _ & _ & Hok & _).
    rewrite Hrun in Hget. by injection Hget as _ <-.
  - exact IH.
  - by apply swept_ok.
Qed.

(** What the store of a reachable_world world looks like: the default lifetime
    is the one [NewSubnetProvider] asked for, and with a [CacheTTL] that is
    not positive no entry carries an expiry instant. *)
Lemma reachable_expirations w :
  reachable_world w ->
  defaultExpiration (cache w) = (if decide (CacheTTL = 0) then -1 else CacheTTL)
  /\ (CacheTTL <= 0 ->
      forall k it, items (cache w) !! k = Some it -> Expiration it = 0).
Proof.
  induction 1 as [e|w ctx p c out w' Hw [IHd IHe] Hget|w e _ IH|w _ [IHd IHe]].
  - split; [done|]. intros _ k it Hk. simpl in Hk. by rewrite lookup_empty in Hk.
  - destruct (Get_effect ctx p c w (reachable_ok w Hw))
      as (r & err & w2 & k & t & Hrun & _ & _ & _ & _ & Hca).
    rewrite Hrun in Hget. injection Hget as _ <-.
    destruct Hca as [->|[_ [s0 ->]]]; [done|]. unfold cache_Set. simpl.
    split; [done|]. intros Hle k' it' Hk'.
    apply lookup_insert_Some in Hk' as [[_ <-]|[_ Hk']]; [|by apply (IHe Hle k')].
    simpl. rewrite IHd. repeat case_decide; lia.
  - exact IH.
  - split; [done|]. intros Hle k it Hk. simpl in Hk.
    apply map_lookup_filter_Some in Hk as [Hk _]. by apply (IHe Hle k).
Qed.

(** X6: in every reachable_world world [Get] returns, and the world it leaves is
    reachable_world and has well-formed cached slices. *)
Theorem Get_returns_when_reachable ctx p c w :
  reachable_world w ->
  cache_ok w
  /\ exists out w', Get ctx p c w = Some (out, w') /\ reachable_world w' /\ cache_ok w'.
Proof.
  intros Hw. pose proof (reachable_ok w Hw) as Hok. split; [done|].
  destruct (Get_effect ctx p c w Hok) as (r & err & w' & k & t & Hrun & _ & _ & _ & Hok' & _).
  exists (r, err), w'. split; [done|]. split; [|done].
  by apply (reachable_Get w ctx p c (r, err) w').
Qed.

(** X7: with a [CacheTTL] that is zero or negative an entry never expires:
    once a cluster's subnets are in the store of a reachable_world world, every
    resolution for it is served from the store, whatever the clock reads. *)
Theorem nonpositive_TTL_never_expires ctx p w it e :
  CacheTTL <= 0 ->
  reachable_world w ->
  items (cache w) !! ClusterName p = Some it ->
  getSubnets ctx p (with_env w e) = Some ((Object it, None), with_env w e).
Proof.
  intros Hle Hw Hk. apply getSubnets_hit; [done|].
  destruct (reachable_expirations w Hw) as [_ He].
  unfold live. rewrite (He Hle _ _ Hk). lia.
Qed.

(** X4: [Get] makes one remote call when the store has no live entry for
    the cluster and none when it has, whatever the constraints; it only adds
    to the heap and to the trace. *)
Theorem Get_calls_once_on_miss ctx p c w :
  cache_ok w ->
  exists out w' k t,
    Get ctx p c w = Some (out, w')
    /\ heap w' = heap w ++ k
    /\ trace w' = trace w ++ t
    /\ remote_calls t
       = match cache_Get (cache w) (ClusterName p) (UnixNano (env w)) with
         | Some _ => 0%nat
         | None => 1%nat
         end.
Proof.
  intros Hok.
  destruct (Get_effect ctx p c w Hok) as (r & err & w' & k & t & Hrun & Hh & Ht & Hn & _).
  by exists (r, err), w', k, t.
Qed.

(** X5: a resolution for one cluster leaves the entries of every other
    cluster, and the lists they hold, as they were. *)
Theorem other_clusters_undisturbed ctx p c w :
  cache_ok w ->
  exists out w',
    Get ctx p c w = Some (out, w')
    /\ (forall name, name <> ClusterName p ->
          items (cache w') !! name = items (cache w) !! name)
    /\ (forall name it xs,
          name <> ClusterName p ->
          items (cache w) !! name = Some it ->
          view (Object it) (heap w) = Some xs ->
          view (Object it) (heap w') = Some xs)
    /\ (forall ctx2 p2 it,
          ClusterName p2 <> ClusterName p ->
          items (cache w) !! ClusterName p2 = Some it ->
          live it (UnixNano (env w')) ->
          getSubnets ctx2 p2 w' = Some ((Object it, None), w')).
Proof.
  intros Hok.
  destruct (Get_effect ctx p c w Hok) as (r & err & w' & k & t & Hrun & Hh & _ & _ & _ & Hca).
  assert (Hother : forall name, name <> ClusterName p ->
            items (cache w') !! name = items (cache w) !! name).
  { intros name Hne. destruct Hca as [->|[_ [s0 ->]]]; [done|].
    unfold cache_Set. simpl. by rewrite lookup_insert_ne. }
  exists (r, err), w'. split; [done|]. split; [done|]. split.
  - intros name it xs _ _ Hv. rewrite Hh. by apply view_app.
  - intros ctx2 p2 it Hne Hk Hlive. apply getSubnets_hit; [|done].
    by rewrite Hother.
Qed.

End Reachable.

Section Refresh.
Context `{GoRuntime} `{Platform}.
Implicit Types (w : World) (s r : slice) (xs base : list Subnet) (c : Constraints).

(** X2: an entry that has expired is not served: [getSubnets] calls the
    service once and, when it answers, returns the new list in a fresh
    array, puts it in the store in place of the old entry, and leaves the
    old list's array as it was. *)
Theorem expired_entry_refetched ctx p w it stale subnets e' :
  items (cache w) !! ClusterName p = Some it ->
  0 < Expiration it < UnixNano (env w) ->
  view (Object it) (heap w) = Some stale ->
  DescribeSubnets ctx (discovery_input (ClusterName p)) (env w) = (inl subnets, e') ->
  exists s0 w1 it',
    getSubnets ctx p w = Some ((s0, None), w1)
    /\ view s0 (heap w1) = Some subnets
    /\ owned (length (heap w)) s0
    /\ view (Object it) (heap w1) = Some stale
    /\ items (cache w1) !! ClusterName p = Some it'
    /\ Object it' = s0
    /\ remote_calls (trace w1) = S (remote_calls (trace w)).
Proof.
  intros Hk Hexp Hstale Hcall.
  pose proof (cache_Get_expired _ _ _ _ Hk Hexp) as Hmiss.
  pose proof (getSubnets_fetch_ok ctx p w subnets e' Hmiss Hcall) as Hget.
  simpl in Hget. eexists _, _, _. split; [exact Hget|]. simpl.
  split; [apply view_fetched|]. split; [unfold owned; simpl; lia|].
  split; [by apply view_app|]. split; [apply lookup_insert_eq|]. split; [done|].
  rewrite remote_calls_app. by rewrite Nat.add_1_r.
Qed.

(** X3: a failed fetch is not remembered: when the store has no entry for
    the cluster and the call fails, the next resolution calls the service
    again, and if it answers this time its list is returned and stored. *)
Theorem failed_fetch_retried ctx p c w cause e1 ctx2 c2 e2 subnets e3 :
  items (cache w) !! ClusterName p = None ->
  DescribeSubnets ctx (discovery_input (ClusterName p)) (env w) = (inr cause, e1) ->
  DescribeSubnets ctx2 (discovery_input (ClusterName p)) e2 = (inl subnets, e3) ->
  exists e w1 r w2 it,
    Get ctx p c w = Some ((nil_slice, Some e), w1)
    /\ Get ctx2 p c2 (with_env w1 e2) = Some ((r, None), w2)
    /\ view r (heap w2) = Some (narrow c2 subnets)
    /\ remote_calls (trace w2) = S (S (remote_calls (trace w)))
    /\ items (cache w2) !! ClusterName p = Some it
    /\ view (Object it) (heap w2) = Some subnets.
Proof.
  intros Hk Hfail Hok.
  assert (Hmiss : forall now, cache_Get (cache w) (ClusterName p) now = None).
  { intros now. unfold cache_Get. by rewrite Hk. }
  pose proof (getSubnets_fetch_fails ctx p w cause e1 (Hmiss _) Hfail) as Hget1.
  pose proof (Get_error ctx p c w _ _ _ Hget1) as Hrun1.
  set (w1 := mkWorld e1 (heap w) (cache w) _) in *.
  pose proof (getSubnets_fetch_ok ctx2 p (with_env w1 e2) subnets e3 (Hmiss _) Hok) as Hget2.
  simpl in Hget2.
  destruct (Get_narrows ctx2 p c2 _ _ _ subnets Hget2 (view_fetched _ _))
    as (r & k & Hrun2 & Hr & _).
  eexists _, w1, r, _, _. split; [exact Hrun1|]. split; [exact Hrun2|]. simpl.
  split; [exact Hr|]. split.
  { rewrite !remote_calls_app. change (remote_calls [_]) with 1%nat.
    change (remote_calls [_; _]) with 1%nat. lia. }
  split; [apply lookup_insert_eq|]. simpl. apply view_app, view_fetched.
Qed.

End Refresh.

Section PredicateExtras.
Implicit Types (tags : list Tag) (zones : list string) (x : Subnet).

(** A subnet that passes [byName] has a tag with key ["Name"], so it
    passes [byTagKey "Name"] too. *)
Lemma byName_tags_has_Name name tags :
  byName_tags name tags = true -> byTagKey_tags "Name" tags = true.
Proof.
  induction tags as [|t rest IH]; simpl; [done|].
  destruct (String.eqb (aws_StringValue (Key t)) "Name"); [done|exact IH].
Qed.

Lemma same_tags_byName name tags tags' :
  Forall2 same_tag tags tags' -> byName_tags name tags = byName_tags name tags'.
Proof.
  induction 1 as [|t t' tags tags' [Hk Hv] _ IH]; simpl; [done|].
  by rewrite Hk, Hv, IH.
Qed.

Lemma same_tags_byTagKey tagKey tags tags' :
  Forall2 same_tag tags tags' ->
  byTagKey_tags tagKey tags = byTagKey_tags tagKey tags'.
Proof.
  induction 1 as [|t t' tags tags' [Hk Hv] _ IH]; simpl; [done|].
  by rewrite Hk, IH.
Qed.

Lemma same_zone_byZones x x' zones :
  aws_StringValue (AvailabilityZone x) = aws_StringValue (AvailabilityZone x') ->
  byZones_zones x zones = byZones_zones x' zones.
Proof.
  intros Hz. induction zones as [|zone rest IH]; simpl; [done|].
  by rewrite Hz, IH.
Qed.

(** X13: the predicates read every [*string] through [aws.StringValue], so a
    nil pointer and a pointer to the empty string are the same to them: two
    subnets whose zones and tags read alike are told apart by none of the
    three. *)
Theorem predicates_read_through_StringValue x x' :
  same_subnet x x' ->
  (forall name, byName name x = byName name x')
  /\ (forall tagKey, byTagKey tagKey x = byTagKey tagKey x')
  /\ (forall zones, byZones zones x = byZones zones x').
Proof.
  intros [Hz Ht]. unfold byName, byTagKey, byZones. split; [|split].
  - intros name. by apply same_tags_byName.
  - intros tagKey. by apply same_tags_byTagKey.
  - intros zones. by apply same_zone_byZones.
Qed.

(** X14: [byZones] treats the zone list as a set: two lists with the same
    members, in any order and with any repetitions, select the same
    subnets. *)
Theorem byZones_reads_zones_as_set zones zones' x :
  (forall z, z ∈ zones <-> z ∈ zones') ->
  byZones zones x = byZones zones' x.
Proof.
  intros Hsame. unfold byZones.
  destruct (byZones_zones x zones) eqn:E, (byZones_zones x zones') eqn:E'; try done.
  - apply byZones_zones_spec, Hsame, byZones_zones_spec in E. congruence.
  - apply byZones_zones_spec, Hsame, byZones_zones_spec in E'. congruence.
Qed.

Lemma Name_tags_perm tags tags' :
  tags ≡ₚ tags' ->
  length (List.filter (fun t => String.eqb (aws_StringValue (Key t)) "Name") tags)
  = length (List.filter (fun t => String.eqb (aws_StringValue (Key t)) "Name") tags').
Proof.
  induction 1 as [|t ts ts' _ IH|t u ts|ts ts' ts'' _ IH1 _ IH2]; simpl.
  - done.
  - destruct (String.eqb _ _); simpl; by rewrite IH.
  - by destruct (String.eqb (aws_StringValue (Key t)) "Name"),
               (String.eqb (aws_StringValue (Key u)) "Name").
  - by rewrite IH1.
Qed.

(** X15: the order of a subnet's tags does not matter to [byTagKey], nor to
    [byName] as long as at most one tag has key ["Name"]. *)
Theorem tag_order_irrelevant (id az : option string) tags tags' :
  tags ≡ₚ tags' ->
  (forall tagKey,
     byTagKey tagKey (mkSubnet id az tags) = byTagKey tagKey (mkSubnet id az tags'))
  /\ ((length (List.filter (fun t => String.eqb (aws_StringValue (Key t)) "Name") tags)
       <= 1)%nat ->
      forall name,
        byName name (mkSubnet id az tags) = byName name (mkSubnet id az tags')).
Proof.
  intros Hperm. unfold byTagKey, byName. simpl. split.
  - intros tagKey.
    destruct (byTagKey_tags tagKey tags) eqn:E, (byTagKey_tags tagKey tags') eqn:E';
      try done.
    + apply byTagKey_tags_spec in E as (tag & Hin & Hk).
      rewrite Hperm in Hin.
      assert (byTagKey_tags tagKey tags' = true) by (apply byTagKey_tags_spec; eauto).
      congruence.
    + apply byTagKey_tags_spec in E' as (tag & Hin & Hk).
      rewrite <- Hperm in Hin.
      assert (byTagKey_tags tagKey tags = true) by (apply byTagKey_tags_spec; eauto).
      congruence.
  - intros Hone name.
    assert (Hone' : (length (List.filter
              (fun t => String.eqb (aws_StringValue (Key t)) "Name") tags') <= 1)%nat)
      by (by rewrite <- (Name_tags_perm tags tags' Hperm)).
    destruct (byName_tags name tags) eqn:E, (byName_tags name tags') eqn:E'; try done.
    + apply (byName_tags_single name tags Hone) in E as (tag & Hin & Hk & Hv).
      rewrite Hperm in Hin.
      assert (byName_tags name tags' = true)
        by (apply (byName_tags_single name tags' Hone'); eauto).
      congruence.
    + apply (byName_tags_single name tags' Hone') in E' as (tag & Hin & Hk & Hv).
      rewrite <- Hperm in Hin.
      assert (byName_tags name tags = true)
        by (apply (byName_tags_single name tags Hone); eauto).
      congruence.
Qed.

End PredicateExtras.

Section StageExtras.
Context `{GoRuntime}.
Implicit Types (s r : slice) (h : list array) (xs : list Subnet).

(** X12: narrowing by tag key ["Name"] after narrowing by name changes
    nothing: the second [filter] returns the elements of the first. *)
Theorem tagKey_Name_after_byName name s h xs :
  view s h = Some xs ->
  exists r1 h1 r2 h2,
    filter (byName name) s h = Some (r1, h1)
    /\ filter (byTagKey "Name") r1 h1 = Some (r2, h2)
    /\ view r1 h1 = Some (List.filter (byName name) xs)
    /\ view r2 h2 = view r1 h1.
Proof.
  intros Hs.
  destruct (filter_spec (byName name) s h xs Hs) as (r1 & k1 & Hrun1 & Hv1 & _).
  destruct (filter_spec (byTagKey "Name") r1 _ _ Hv1) as (r2 & k2 & Hrun2 & Hv2 & _).
  eexists r1, _, r2, _. split; [exact Hrun1|]. split; [exact Hrun2|].
  split; [exact Hv1|]. rewrite Hv1, Hv2, filter_filter. f_equal.
  apply List.filter_ext. intros x. unfold byName, byTagKey.
  destruct (byName_tags name (Tags x)) eqn:E; [|done].
  by rewrite (byName_tags_has_Name name _ E).
Qed.

End StageExtras.

Section Aliasing.
Context `{GoRuntime} `{Platform}.
Implicit Types (w : World) (s r : slice) (xs base : list Subnet) (c : Constraints).

Lemma owned_unallocated (h : list array) r l :
  owned (length h) r -> data r = arrayptr l -> h !! l = None.
Proof.
  unfold owned. intros Hown Hl. rewrite Hl in Hown. by apply lookup_ge_None.
Qed.

(** One stage, run or skipped: a stage that runs returns a slice over an
    array of its own, a stage that is skipped returns the slice it got. *)
Lemma stage_fresh (present : bool) (m : M slice) (f : Subnet -> bool) s xs e
    (h : list array) ca tr :
  view s h = Some xs ->
  m = (if present then s_filter f s else ret s) ->
  exists r k,
    m (mkWorld e h ca tr) = Some (r, mkWorld e (h ++ k) ca tr)
    /\ view r (h ++ k) = Some (if present then List.filter f xs else xs)
    /\ (if present then owned (length h) r else r = s /\ k = []).
Proof.
  intros Hs ->. destruct present.
  - destruct (s_filter_spec f s xs e h [] ca tr)
      as (r & k & Hrun & ? & ? & _); [by rewrite app_nil_r|].
    rewrite app_nil_r in Hrun. by exists r, k.
  - exists s, []. unfold ret. by rewrite app_nil_r.
Qed.

(** X10: a [Get] that applies at least one constraint returns a slice over
    an array that did not exist before the call: it shares nothing with the
    store.  A [Get] without constraints returns the very slice [getSubnets]
    produced, which on a cache hit is the stored one. *)
Theorem Get_result_fresh_iff_constrained ctx p c w s0 w1 base :
  getSubnets ctx p w = Some ((s0, None), w1) ->
  view s0 (heap w1) = Some base ->
  exists r w2,
    Get ctx p c w = Some ((r, None), w2)
    /\ (constrained c = false -> r = s0 /\ w2 = w1)
    /\ (constrained c = true ->
        forall l, data r = arrayptr l ->
                  heap w1 !! l = None /\ is_Some (heap w2 !! l)).
Proof.
  intros Hget Hbase. unfold Get, bind. rewrite Hget. destruct w1 as [e h0 ca tr].
  cbv beta iota. unfold env, heap, cache, trace in *.
  unfold GetSubnetName, GetSubnetTagKey, constrained.
  destruct (stage_fresh (bool_decide (is_Some (SubnetName c)))
              (match SubnetName c with
               | Some _ as name => s_filter (byName (aws_StringValue name)) s0
               | None => ret s0
               end) (byName (aws_StringValue (SubnetName c))) s0 base e h0 ca tr Hbase)
    as (r1 & k1 & -> & Hr1 & Hf1).
  { destruct (SubnetName c); done. }
  destruct (stage_fresh (bool_decide (is_Some (SubnetTagKey c)))
              (match SubnetTagKey c with
               | Some tagKey => s_filter (byTagKey tagKey) r1
               | None => ret r1
               end) (byTagKey (aws_StringValue (SubnetTagKey c))) r1 _ e _ ca tr Hr1)
    as (r2 & k2 & -> & Hr2 & Hf2).
  { destruct (SubnetTagKey c); done. }
  destruct (stage_fresh (bool_decide (length (Zones c) ≠ 0%nat))
              (if decide (length (Zones c) ≠ 0%nat)
               then s_filter (byZones (Zones c)) r2
               else ret r2) (byZones (Zones c)) r2 _ e _ ca tr Hr2)
    as (r3 & k3 & -> & Hr3 & Hf3).
  { by destruct (Zones c). }
  eexists r3, _. split; [unfold ret; reflexivity|].
  assert (Hfresh : forall r (k : list array),
            owned (length h0) r -> is_Some (view r (h0 ++ k)) ->
            forall l, data r = arrayptr l ->
                      h0 !! l = None /\ is_Some ((h0 ++ k) !! l)).
  { intros r k Hown [ys Hys] l Hl. split; [by apply (owned_unallocated h0 r)|].
    destruct (proj1 (view_array r (h0 ++ k) l ys Hl) Hys) as (a & Ha & _).
    by exists a. }
  unfold bool_decide in *.
  destruct (SubnetName c) as [name|], (SubnetTagKey c) as [tagKey|],
           (Zones c) as [|zone zones]; simpl in *.
  all: repeat match goal with
       | Hx : _ /\ _ |- _ => destruct Hx as [? ?]
       end; subst; rewrite ?app_nil_r in *.
  all: split; [intros Hc; try discriminate Hc; by rewrite ?app_nil_r
              |intros Hc; try discriminate Hc].
  all: rewrite <- ?app_assoc in *.
  all: intros l Hl;
    match type of Hl with
    | data ?r = _ =>
        match goal with
        | Hv : view r (_ ++ ?k) = Some _ |- _ =>
            apply (Hfresh r k); [eauto using owned_app | by eexists | done]
        end
    end.
Qed.

(** X9: what [Get] returns is a sublist of what [getSubnets] gave it: no
    subnet is added, repeated or moved, and the result is no longer than
    the base list. *)
Theorem Get_result_sublist_of_base ctx p c w s0 w1 base :
  getSubnets ctx p w = Some ((s0, None), w1) ->
  view s0 (heap w1) = Some base ->
  exists r w2 ys,
    Get ctx p c w = Some ((r, None), w2)
    /\ view r (heap w2) = Some ys
    /\ ys `sublist_of` base
    /\ (len r <= len s0)%nat.
Proof.
  intros Hget Hbase.
  destruct (Get_narrows ctx p c w s0 w1 base Hget Hbase) as (r & k & Hrun & Hr & _).
  eexists r, _, _. split; [exact Hrun|]. split; [exact Hr|].
  rewrite narrow_admits. split; [apply filter_sublist|].
  rewrite <- (view_length _ _ _ Hr), <- (view_length _ _ _ Hbase), narrow_admits.
  apply sublist_length, filter_sublist.
Qed.

End Aliasing.

Section DiscoveryExtras.
Context `{GoRuntime} `{Platform}.
Implicit Types (w : World).

Lemma string_app_length (a b : string) :
  String.length (a +:+ b) = (String.length a + String.length b)%nat.
Proof.
  induction a as [|ch a IH]; [done|]. rewrite string_app_cons. simpl. by rewrite IH.
Qed.

Lemma string_app_inv_tail (a b post : string) : a +:+ post = b +:+ post -> a = b.
Proof.
  revert b. induction a as [|ch a IH]; intros [|ch' b] Heq.
  - done.
  - apply (f_equal String.length) in Heq.
    rewrite string_app_cons in Heq. simpl in Heq.
    rewrite !string_app_length in Heq. simpl in Heq. lia.
  - apply (f_equal String.length) in Heq.
    rewrite string_app_cons in Heq. simpl in Heq.
    rewrite !string_app_length in Heq. simpl in Heq. lia.
  - rewrite !string_app_cons in Heq. injection Heq as -> Heq. f_equal. by apply IH.
Qed.

(** X16: when [ClusterTagKeyFormat] is literal text around one [%s], the
    requests [getSubnets] sends for two clusters are the same only if the
    clusters have the same name: one cluster's discovery never asks for
    another's subnets. *)
Theorem discovery_filter_tells_clusters_apart pre post ctx1 p1 w1 ctx2 p2 w2 :
  ClusterTagKeyFormat = pre +:+ "%s" +:+ post ->
  percent_free pre = true -> percent_free post = true ->
  cache_Get (cache w1) (ClusterName p1) (UnixNano (env w1)) = None ->
  cache_Get (cache w2) (ClusterName p2) (UnixNano (env w2)) = None ->
  exists out1 w1' rest1 out2 w2' rest2 request1 request2,
    getSubnets ctx1 p1 w1 = Some (out1, w1')
    /\ trace w1' = trace w1 ++ DescribeSubnetsCall request1 :: rest1
    /\ getSubnets ctx2 p2 w2 = Some (out2, w2')
    /\ trace w2' = trace w2 ++ DescribeSubnetsCall request2 :: rest2
    /\ (request1 = request2 <-> ClusterName p1 = ClusterName p2).
Proof.
  intros Hfmt Hpre Hpost Hmiss1 Hmiss2.
  destruct (getSubnets_miss_calls ctx1 p1 w1 Hmiss1) as (out1 & w1' & rest1 & Hrun1 & Ht1 & _).
  destruct (getSubnets_miss_calls ctx2 p2 w2 Hmiss2) as (out2 & w2' & rest2 & Hrun2 & Ht2 & _).
  eexists out1, w1', rest1, out2, w2', rest2, _, _.
  split; [exact Hrun1|]. split; [exact Ht1|]. split; [exact Hrun2|]. split; [exact Ht2|].
  split; [|by intros ->].
  unfold discovery_input. intros [= Heq]. rewrite Hfmt in Heq.
  rewrite !Sprintf_substitutes in Heq by done.
  apply (inj (String.append pre)) in Heq. by apply string_app_inv_tail in Heq.
Qed.

End DiscoveryExtras.

Section SweepExtras.
Context `{GoRuntime} `{Platform}.
Implicit Types (w : World).

(** X8: a sweep of the janitor never shows in what [Get] returns: from the
    store swept at any earlier instant, [Get] returns the same slice or
    error and leaves the same environment, heap and trace. *)
Theorem sweep_invisible_to_Get ctx p c w t out w' :
  t <= UnixNano (env w) ->
  Get ctx p c w = Some (out, w') ->
  exists ca,
    Get ctx p c (swept w t) = Some (out, mkWorld (env w') (heap w') ca (trace w')).
Proof.
  intros Ht. unfold Get, bind, getSubnets, bind, s_cache_Get, bind, time_Now, swept.
  simpl. rewrite (cache_Get_after_sweep _ _ _ _ Ht).
  destruct (cache_Get (cache w) (ClusterName p) (UnixNano (env w))) as [s|].
  - unfold ret, s_filter, GetSubnetName, GetSubnetTagKey. simpl.
    destruct (SubnetName c), (SubnetTagKey c), (Zones c); simpl;
      repeat (match goal with
              | |- context [filter ?f ?s ?h] => destruct (filter f s h) as [[? ?]|]; simpl
              end);
      intros [= <- <-] || intros [=]; simpl; eauto.
  - unfold DescribeSubnetsWithContext, bind, emit, s_cache_Set, bind, time_Now. simpl.
    destruct (DescribeSubnets _ _ _) as [[subnets|cause] e']; simpl;
      [|intros [= <- <-]; simpl; eauto].
    unfold ret, s_filter, GetSubnetName, GetSubnetTagKey. simpl.
    destruct (SubnetName c), (SubnetTagKey c), (Zones c); simpl;
      repeat (match goal with
              | |- context [filter ?f ?s ?h] => destruct (filter f s h) as [[? ?]|]; simpl
              end);
      intros [= <- <-] || intros [=]; simpl; eauto.
Qed.

End SweepExtras.

Section MoreFilter.
Context `{GoRuntime}.
Implicit Types (s r : slice) (h : list array) (xs : list Subnet).

Lemma filter_loop_no_match (p : Subnet -> bool) s h xs :
  view s h = Some xs ->
  Forall (fun x => p x = false) xs ->
  forall n i r, (i + n = len s)%nat -> filter_loop p s i n r h = Some (r, h).
Proof.
  intros Hs Hno. pose proof (view_length _ _ _ Hs) as Hlen.
  induction n as [|n IH]; intros i r Hin; simpl; [done|].
  rewrite (view_index s h xs i Hs) by lia.
  destruct (xs !! i) as [x|] eqn:Hx.
  2: { apply lookup_ge_None in Hx. lia. }
  rewrite Forall_lookup in Hno. rewrite (Hno i x Hx). apply IH. lia.
Qed.

(** X11: when no element satisfies the predicate, and so for an empty or
    nil input, [filter] allocates nothing and returns the empty non-nil
    slice, never nil. *)
Theorem filter_no_match_is_empty_not_nil (p : Subnet -> bool) s h xs :
  view s h = Some xs ->
  Forall (fun x => p x = false) xs ->
  filter p s h = Some (empty_slice, h)
  /\ empty_slice <> nil_slice
  /\ view empty_slice h = Some [].
Proof.
  intros Hs Hno. split; [|done]. unfold filter.
  by apply (filter_loop_no_match p s h xs Hs Hno).
Qed.

End MoreFilter.

Section MissPath.
Context `{GoRuntime} `{Platform}.
Implicit Types (w : World) (c : Constraints).

(** X1: what a resolution that had to fetch puts in the store is the
    whole list the service returned, not the list narrowed by that call's
    constraints: a later resolution for the same cluster name, until the
    clock passes the fetch instant plus [CacheTTL], narrows the whole list
    by its own constraints, without a call. *)
Theorem miss_caches_unfiltered_list ctx p c w subnets e' ctx2 p2 c2 e2 :
  cache_Get (cache w) (ClusterName p) (UnixNano (env w)) = None ->
  DescribeSubnets ctx (discovery_input (ClusterName p)) (env w) = (inl subnets, e') ->
  ClusterName p2 = ClusterName p ->
  UnixNano e2 <= UnixNano e' + CacheTTL ->
  exists r w1 it r2 w2,
    Get ctx p c w = Some ((r, None), w1)
    /\ view r (heap w1) = Some (narrow c subnets)
    /\ items (cache w1) !! ClusterName p = Some it
    /\ view (Object it) (heap w1) = Some subnets
    /\ Get ctx2 p2 c2 (with_env w1 e2) = Some ((r2, None), w2)
    /\ view r2 (heap w2) = Some (narrow c2 subnets)
    /\ trace w2 = trace w1.
Proof.
  intros Hmiss Hcall Hname Hwithin.
  pose proof (getSubnets_fetch_ok ctx p w subnets e' Hmiss Hcall) as Hget.
  simpl in Hget.
  destruct (Get_narrows ctx p c w _ _ subnets Hget (view_fetched _ _))
    as (r & k & Hrun & Hr & _).
  simpl in Hrun, Hr.
  set (s0 := mkSlice (arrayptr (length (heap w))) (length subnets) (length subnets)) in *.
  set (ca := cache_Set (cache w) (ClusterName p) s0 CacheTTL (UnixNano e')) in *.
  set (w1 := mkWorld e' _ ca _) in Hrun.
  assert (Hit : exists it, items ca !! ClusterName p = Some it /\ Object it = s0
                           /\ live it (UnixNano e2)).
  { eexists. split; [apply lookup_insert_eq|]. split; [done|].
    unfold live. simpl. repeat case_decide; lia. }
  destruct Hit as (it & Hk & Hobj & Hlive).
  assert (Hfull : view (Object it) (heap w1) = Some subnets).
  { rewrite Hobj. simpl. apply view_app, view_fetched. }
  rewrite <- Hname in Hk.
  pose proof (getSubnets_hit ctx2 p2 (with_env w1 e2) it Hk Hlive) as Hhit.
  rewrite Hname in Hk.
  destruct (Get_narrows ctx2 p2 c2 _ _ _ subnets Hhit Hfull) as (r2 & k2 & Hrun2 & Hr2 & _).
  eexists r, w1, it, r2, _. split; [exact Hrun|]. split; [exact Hr|].
  split; [exact Hk|]. split; [exact Hfull|]. split; [exact Hrun2|]. split; [exact Hr2|].
  done.
Qed.

End MissPath.

(** * The theorems at work on the concrete platform *)

Import Demo.

Lemma Get_stages_in_order_witness :
  exists s0 err w1,
    getSubnets background prod up = Some ((s0, err), w1)
    /\ match err with
       | Some e => Get background prod named_a up = Some ((nil_slice, Some e), w1)
       | None =>
           exists base r w2,
             view s0 (heap w1) = Some base
             /\ Get background prod named_a up = Some ((r, None), w2)
             /\ view r (heap w2)
                = Some (stage_zones named_a (stage_tagKey named_a (stage_name named_a base)))
             /\ (SubnetName named_a = None -> SubnetTagKey named_a = None ->
                 Zones named_a = [] -> r = s0 /\ w2 = w1)
       end.
Proof.
  apply (Get_stages_in_order background prod named_a up).
  intros k it Hk. vm_compute in Hk. discriminate Hk.
Defined.

Lemma cache_hit_skips_fetch_witness :
  getSubnets background prod warm = Some ((Object warm_item, None), warm)
  /\ (exists r k,
        Get background prod in_1b warm
        = Some ((r, None), mkWorld (env warm) (heap warm ++ k) (cache warm) (trace warm))
        /\ view r (heap warm ++ k) = Some (narrow in_1b [s1; s2]))
  /\ (forall ctx' p' e' h' tr',
        ClusterName p' = ClusterName prod ->
        live warm_item (UnixNano e') ->
        getSubnets ctx' p' (mkWorld e' h' (cache warm) tr')
        = Some ((Object warm_item, None), mkWorld e' h' (cache warm) tr')).
Proof.
  apply (cache_hit_skips_fetch background prod in_1b warm warm_item [s1; s2]).
  - vm_compute. reflexivity.
  - unfold live. vm_compute. intros [_ Hlt]. discriminate Hlt.
  - vm_compute. reflexivity.
Defined.

Lemma Get_fetch_failure_witness :
  exists e w',
    Get background staging in_1b down = Some ((nil_slice, Some e), w')
    /\ Unwrap e = Some transport_error
    /\ Error e = "describing subnets, " +:+ Error transport_error
    /\ cache w' = cache down
    /\ heap w' = heap down
    /\ env w' = later false
    /\ trace w' = trace down ++ [DescribeSubnetsCall (discovery_input (ClusterName staging))].
Proof.
  apply (Get_fetch_failure background staging in_1b down transport_error (later false)).
  - vm_compute. reflexivity.
  - vm_compute. reflexivity.
Defined.

(** The error of a failed resolution for [staging] does not mention
    [staging]. *)
Lemma failure_omits_cluster : ~ failure_names_cluster.
Proof.
  intros Hnames.
  destruct (Hnames runtime platform background staging no_constraints down transport_error
              (later false) eq_refl eq_refl)
    as (e & w' & Hget & _ & Hmentions & _).
  vm_compute in Hget. injection Hget as <- _.
  vm_compute in Hmentions. discriminate Hmentions.
Qed.

Lemma byName_first_Name_tag_governs_witness : byName "a" s3 = false.
Proof.
  apply (proj1 (proj2 (byName_first_Name_tag_governs "a" s3))
           [] (mkTag (Some "Name") (Some "b")) [mkTag (Some "Name") (Some "a")]).
  - reflexivity.
  - constructor.
  - reflexivity.
  - discriminate.
Defined.

Lemma filter_keeps_matching_in_order_witness :
  exists result h',
    filter (byName "a") slice3 heap3 = Some (result, h')
    /\ view result h' = Some (List.filter (byName "a") [s1; s2; s3])
    /\ List.filter (byName "a") [s1; s2; s3] `sublist_of` [s1; s2; s3]
    /\ (forall x, x ∈ List.filter (byName "a") [s1; s2; s3]
                  <-> x ∈ [s1; s2; s3] /\ byName "a" x = true)
    /\ data result <> null.
Proof.
  apply (filter_keeps_matching_in_order (byName "a") slice3 heap3 [s1; s2; s3]).
  vm_compute. reflexivity.
Defined.

Lemma narrowing_order_independent_witness :
  (exists r w2,
     Get background prod named_a up = Some ((r, None), w2)
     /\ view r (heap w2) = Some (List.filter (admits named_a) [s1; s2])
     /\ (forall order : list (Subnet -> bool),
           order ≡ₚ [admits_name named_a; admits_tagKey named_a; admits_zones named_a] ->
           view r (heap w2)
           = Some (foldr (fun f acc => List.filter f acc) [s1; s2] order)))
  /\ (forall f g : Subnet -> bool,
      exists r1 h1 r2 h2 r1' h1' r2' h2',
        filter f (mkSlice (arrayptr 0) 2 2) (heap warm) = Some (r1, h1)
        /\ filter g r1 h1 = Some (r2, h2)
        /\ filter g (mkSlice (arrayptr 0) 2 2) (heap warm) = Some (r1', h1')
        /\ filter f r1' h1' = Some (r2', h2')
        /\ view r2 h2 = Some (List.filter (fun x => f x && g x) [s1; s2])
        /\ view r2' h2' = view r2 h2).
Proof.
  apply (narrowing_order_independent background prod named_a up (mkSlice (arrayptr 0) 2 2) warm
           [s1; s2]).
  - vm_compute. reflexivity.
  - vm_compute. reflexivity.
Defined.

Lemma byZones_member_and_empty_zones_witness :
  exists r w2,
    Get background prod tagged_Name up = Some ((r, None), w2)
    /\ view r (heap w2)
       = Some (stage_tagKey tagged_Name (stage_name tagged_Name [s1; s2])).
Proof.
  apply (proj2 byZones_member_and_empty_zones background prod tagged_Name up
           (mkSlice (arrayptr 0) 2 2) warm [s1; s2]).
  - reflexivity.
  - vm_compute. reflexivity.
  - vm_compute. reflexivity.
Defined.

Lemma byTagKey_any_value_witness :
  byTagKey "Name" s3 = true <->
  exists tag, tag ∈ Tags s3 /\ aws_StringValue (Key tag) = "Name".
Proof. exact (proj1 (byTagKey_any_value "Name" s3)). Defined.

Lemma discovery_filter_from_cluster_name_witness :
  fmt_Sprintf ClusterTagKeyFormat (ClusterName prod)
  = "kubernetes.io/cluster/" +:+ ClusterName prod +:+ "".
Proof.
  apply (proj1 (proj2 (discovery_filter_from_cluster_name background prod up eq_refl))
           "kubernetes.io/cluster/" "").
  - reflexivity.
  - reflexivity.
  - reflexivity.
Defined.

Lemma filtering_never_mutates_cache_witness :
  (forall (f : Subnet -> bool) s xs,
     view s (heap warm) = Some xs ->
     exists r k, filter f s (heap warm) = Some (r, heap warm ++ k)
                 /\ owned (length (heap warm)) r)
  /\ (exists r w',
        Get background prod named_a warm = Some ((r, None), w')
        /\ cache w' = cache warm
        /\ (forall l a, heap warm !! l = Some a -> heap w' !! l = Some a)
        /\ (r = Object warm_item \/ owned (length (heap warm)) r)
        /\ view (Object warm_item) (heap w') = Some [s1; s2]
        /\ (forall ctx2 p2 c2 e2,
              ClusterName p2 = ClusterName prod ->
              live warm_item (UnixNano e2) ->
              exists r2 w2,
                Get ctx2 p2 c2 (with_env w' e2) = Some ((r2, None), w2)
                /\ view r2 (heap w2) = Some (narrow c2 [s1; s2]))).
Proof.
  apply (filtering_never_mutates_cache background prod named_a warm warm_item [s1; s2]).
  - vm_compute. reflexivity.
  - unfold live. vm_compute. intros [_ Hlt]. discriminate Hlt.
  - vm_compute. reflexivity.
Defined.

(** ** Runs on the reference data *)

Example resolve_by_name : resolve named_a = Some [s1].
Proof. vm_compute. reflexivity. Qed.

Example resolve_by_zone : resolve in_1b = Some [s2].
Proof. vm_compute. reflexivity. Qed.

Example resolve_by_tag_key : resolve tagged_Name = Some [s1; s2].
Proof. vm_compute. reflexivity. Qed.

Example resolve_unconstrained : resolve no_constraints = Some [s1; s2].
Proof. vm_compute. reflexivity. Qed.

Example other_provisioner_same_cluster :
  getSubnets background prod' warm = Some ((Object warm_item, None), warm).
Proof. vm_compute. reflexivity. Qed.

Example failed_fetch_leaves_store_empty :
  exists e w,
    Get background staging no_constraints down = Some ((nil_slice, Some e), w)
    /\ items (cache w) = ∅.
Proof. eexists _, _. split; vm_compute; reflexivity. Qed.

Example filter_without_match :
  filter (byName "c") slice3 heap3 = Some (empty_slice, heap3).
Proof. reflexivity. Qed.

Example second_Name_tag_ignored : byName "a" s3 = false /\ byName "b" s3 = true.
Proof. split; reflexivity. Qed.

Example cluster_tag_key :
  fmt_Sprintf ClusterTagKeyFormat "prod" = "kubernetes.io/cluster/prod".
Proof. reflexivity. Qed.

Example operand_left_over : fmt_Sprintf "subnets" "prod" = "subnets%!(EXTRA string=prod)".
Proof. reflexivity. Qed.

(** ** The further properties at work *)

Lemma warm_reachable : reachable_world warm.
Proof.
  apply (reachable_Get up background prod no_constraints
           (mkSlice (arrayptr 0) 2 2, None) warm
           (@reachable_new runtime platform (mkEnv 1000 true))).
  vm_compute. reflexivity.
Qed.

Lemma warm_ok : cache_ok warm.
Proof. exact (reachable_ok warm warm_reachable). Qed.

Lemma miss_caches_unfiltered_list_witness :
  exists r w1 it r2 w2,
    Get background prod named_a up = Some ((r, None), w1)
    /\ view r (heap w1) = Some (narrow named_a [s1; s2])
    /\ items (cache w1) !! ClusterName prod = Some it
    /\ view (Object it) (heap w1) = Some [s1; s2]
    /\ Get background prod' in_1b (with_env w1 (mkEnv 5000000 false)) = Some ((r2, None), w2)
    /\ view r2 (heap w2) = Some (narrow in_1b [s1; s2])
    /\ trace w2 = trace w1.
Proof.
  apply (miss_caches_unfiltered_list background prod named_a up [s1; s2] (later true)
           background prod' in_1b (mkEnv 5000000 false)).
  - vm_compute. reflexivity.
  - vm_compute. reflexivity.
  - reflexivity.
  - vm_compute. discriminate.
Defined.

Lemma expired_entry_refetched_witness :
  exists s0 w1 it',
    getSubnets background prod expired = Some ((s0, None), w1)
    /\ view s0 (heap w1) = Some [s1; s2]
    /\ owned (length (heap expired)) s0
    /\ view (Object warm_item) (heap w1) = Some [s1; s2]
    /\ items (cache w1) !! ClusterName prod = Some it'
    /\ Object it' = s0
    /\ remote_calls (trace w1) = S (remote_calls (trace expired)).
Proof.
  apply (expired_entry_refetched background prod expired warm_item [s1; s2] [s1; s2]
           (mkEnv 70001000000 true)).
  - vm_compute. reflexivity.
  - vm_compute. split; reflexivity.
  - vm_compute. reflexivity.
  - vm_compute. reflexivity.
Defined.

Lemma failed_fetch_retried_witness :
  exists e w1 r w2 it,
    Get background staging named_a down = Some ((nil_slice, Some e), w1)
    /\ Get background staging in_1b (with_env w1 (mkEnv 2000 true)) = Some ((r, None), w2)
    /\ view r (heap w2) = Some (narrow in_1b [s1; s2])
    /\ remote_calls (trace w2) = S (S (remote_calls (trace down)))
    /\ items (cache w2) !! ClusterName staging = Some it
    /\ view (Object it) (heap w2) = Some [s1; s2].
Proof.
  apply (failed_fetch_retried background staging named_a down transport_error (later false)
           background in_1b (mkEnv 2000 true) [s1; s2] (mkEnv 1002000 true)).
  - vm_compute. reflexivity.
  - vm_compute. reflexivity.
  - vm_compute. reflexivity.
Defined.

Lemma Get_calls_once_on_miss_witness :
  exists out w' k t,
    Get background staging in_1b warm = Some (out, w')
    /\ heap w' = heap warm ++ k
    /\ trace w' = trace warm ++ t
    /\ remote_calls t
       = match cache_Get (cache warm) (ClusterName staging) (UnixNano (env warm)) with
         | Some _ => 0%nat
         | None => 1%nat
         end.
Proof. exact (Get_calls_once_on_miss background staging in_1b warm warm_ok). Defined.

Lemma other_clusters_undisturbed_witness :
  exists out w',
    Get background staging in_1b warm = Some (out, w')
    /\ items (cache w') !! ClusterName prod = items (cache warm) !! ClusterName prod.
Proof.
  destruct (other_clusters_undisturbed background staging in_1b warm warm_ok)
    as (out & w' & Hrun & Hother & _).
  exists out, w'. split; [exact Hrun|]. apply Hother. discriminate.
Defined.

Lemma Get_returns_when_reachable_witness :
  cache_ok warm
  /\ exists out w',
       Get background prod named_a warm = Some (out, w') /\ reachable_world w' /\ cache_ok w'.
Proof. exact (Get_returns_when_reachable background prod named_a warm warm_reachable). Defined.

Lemma forever_reachable : reachable_world DemoForever.warm.
Proof.
  apply (reachable_Get DemoForever.up DemoForever.background DemoForever.prod no_constraints
           DemoForever.fetched DemoForever.warm
           (@reachable_new runtime DemoForever.platform (mkEnv 1000 true))).
  vm_compute. reflexivity.
Qed.

Lemma nonpositive_TTL_never_expires_witness :
  getSubnets DemoForever.background DemoForever.prod
    (with_env DemoForever.warm DemoForever.much_later)
  = Some ((Object DemoForever.stored, None),
          with_env DemoForever.warm DemoForever.much_later).
Proof.
  apply (nonpositive_TTL_never_expires DemoForever.background DemoForever.prod
           DemoForever.warm DemoForever.stored DemoForever.much_later).
  - vm_compute. discriminate.
  - exact forever_reachable.
  - vm_compute. reflexivity.
Defined.

Lemma sweep_invisible_to_Get_witness :
  exists ca,
    Get background prod no_constraints (swept expired 65000000000)
    = Some ((mkSlice (arrayptr 1) 2 2, None),
            mkWorld (env refreshed) (heap refreshed) ca (trace refreshed)).
Proof.
  apply (sweep_invisible_to_Get background prod no_constraints expired 65000000000
           (mkSlice (arrayptr 1) 2 2, None) refreshed).
  - vm_compute. discriminate.
  - vm_compute. reflexivity.
Defined.

Lemma Get_result_sublist_of_base_witness :
  exists r w2 ys,
    Get background prod in_1b warm = Some ((r, None), w2)
    /\ view r (heap w2) = Some ys
    /\ ys `sublist_of` [s1; s2]
    /\ (len r <= len (Object warm_item))%nat.
Proof.
  apply (Get_result_sublist_of_base background prod in_1b warm (Object warm_item) warm
           [s1; s2]).
  - vm_compute. reflexivity.
  - vm_compute. reflexivity.
Defined.

Lemma Get_result_fresh_iff_constrained_witness :
  exists r w2,
    Get background prod in_1b warm = Some ((r, None), w2)
    /\ (constrained in_1b = false -> r = Object warm_item /\ w2 = warm)
    /\ (constrained in_1b = true ->
        forall l, data r = arrayptr l ->
                  heap warm !! l = None /\ is_Some (heap w2 !! l)).
Proof.
  apply (Get_result_fresh_iff_constrained background prod in_1b warm (Object warm_item)
           warm [s1; s2]).
  - vm_compute. reflexivity.
  - vm_compute. reflexivity.
Defined.

Lemma filter_no_match_is_empty_not_nil_witness :
  filter (byName "c") slice3 heap3 = Some (empty_slice, heap3)
  /\ empty_slice <> nil_slice
  /\ view empty_slice heap3 = Some [].
Proof.
  apply (filter_no_match_is_empty_not_nil (byName "c") slice3 heap3 [s1; s2; s3]).
  - vm_compute. reflexivity.
  - repeat constructor.
Defined.

Lemma tagKey_Name_after_byName_witness :
  exists r1 h1 r2 h2,
    filter (byName "a") slice3 heap3 = Some (r1, h1)
    /\ filter (byTagKey "Name") r1 h1 = Some (r2, h2)
    /\ view r1 h1 = Some (List.filter (byName "a") [s1; s2; s3])
    /\ view r2 h2 = view r1 h1.
Proof.
  apply (tagKey_Name_after_byName "a" slice3 heap3 [s1; s2; s3]).
  vm_compute. reflexivity.
Defined.

Lemma predicates_read_through_StringValue_witness :
  (forall name, byName name bare = byName name bare')
  /\ (forall tagKey, byTagKey tagKey bare = byTagKey tagKey bare')
  /\ (forall zones, byZones zones bare = byZones zones bare').
Proof.
  apply (predicates_read_through_StringValue bare bare').
  split; [reflexivity|]. repeat constructor.
Defined.

Lemma byZones_reads_zones_as_set_witness :
  byZones ["us-east-1a"; "us-east-1b"; "us-east-1a"] s2
  = byZones ["us-east-1b"; "us-east-1a"] s2.
Proof.
  apply (byZones_reads_zones_as_set
           ["us-east-1a"; "us-east-1b"; "us-east-1a"] ["us-east-1b"; "us-east-1a"] s2).
  intros z. rewrite !elem_of_cons, !elem_of_nil. tauto.
Defined.

Lemma tag_order_irrelevant_witness :
  (forall tagKey,
     byTagKey tagKey
       (mkSubnet None None [mkTag (Some "Name") (Some "a"); mkTag (Some "env") (Some "x")])
     = byTagKey tagKey
         (mkSubnet None None [mkTag (Some "env") (Some "x"); mkTag (Some "Name") (Some "a")]))
  /\ ((length (List.filter (fun t => String.eqb (aws_StringValue (Key t)) "Name")
                 [mkTag (Some "Name") (Some "a"); mkTag (Some "env") (Some "x")])
       <= 1)%nat ->
      forall name,
        byName name
          (mkSubnet None None [mkTag (Some "Name") (Some "a"); mkTag (Some "env") (Some "x")])
        = byName name
            (mkSubnet None None [mkTag (Some "env") (Some "x"); mkTag (Some "Name") (Some "a")])).
Proof.
  apply (tag_order_irrelevant None None
           [mkTag (Some "Name") (Some "a"); mkTag (Some "env") (Some "x")]
           [mkTag (Some "env") (Some "x"); mkTag (Some "Name") (Some "a")]).
  apply perm_swap.
Defined.

Lemma discovery_filter_tells_clusters_apart_witness :
  exists out1 w1' rest1 out2 w2' rest2 request1 request2,
    getSubnets background prod up = Some (out1, w1')
    /\ trace w1' = trace up ++ DescribeSubnetsCall request1 :: rest1
    /\ getSubnets background staging down = Some (out2, w2')
    /\ trace w2' = trace down ++ DescribeSubnetsCall request2 :: rest2
    /\ (request1 = request2 <-> ClusterName prod = ClusterName staging).
Proof.
  apply (discovery_filter_tells_clusters_apart "kubernetes.io/cluster/" ""
           background prod up background staging down).
  - reflexivity.
  - reflexivity.
  - reflexivity.
  - vm_compute. reflexivity.
  - vm_compute. reflexivity.
Defined.
